(** * Everest: namespace validation and provisioning, restore access control

    A shallow embedding of
    - [pkg/cli/namespaces/add.go] (package [namespaces]): the namespace
      validator, the namespace state resolver and the provisioner;
    - the restore handlers of package [api] (list filter, composite
      authorization of restore creation);
    - the constants of package [common] they use.

    Go strings are byte sequences: they are modelled as [string] (a list of
    [ascii] bytes).  Calls into the cluster, the Helm installer and the RBAC
    enforcer are modelled as explicit interfaces with state passing. *)

From Stdlib Require Import Ascii String.
From stdpp Require Import base option list sets gmap strings.

Set Warnings "-clear-no-such-hyp".

Local Open Scope string_scope.
Local Open Scope list_scope.

(** ** Go's [strings] package: the two functions the validator calls *)

Module strings.

Definition bytes (s : string) : list ascii := list_ascii_of_string s.
Definition of_bytes (l : list ascii) : string := string_of_list_ascii l.

(** [strings.Split(s, ",")] on the bytes of [s]: one more field than there
    are commas, so the empty string gives one empty field. *)
Fixpoint split_comma (s : list ascii) : list (list ascii) :=
  match s with
  | [] => [[]]
  | c :: s' =>
      if Ascii.eqb c "," then [] :: split_comma s'
      else match split_comma s' with
           | t :: ts => (c :: t) :: ts
           | [] => [[c]]
           end
  end.

Definition Split (s : string) : list string :=
  of_bytes <$> split_comma (bytes s).

(** [strings.Join(fields, ",")], the inverse of the split. *)
Fixpoint join_comma (fields : list (list ascii)) : list ascii :=
  match fields with
  | [] => []
  | [f] => f
  | f :: rest => f ++ ","%char :: join_comma rest
  end.

Definition Join (fields : list string) : string :=
  of_bytes (join_comma (bytes <$> fields)).

(** [unicode.IsSpace] on a rune given by its UTF-8 encoding: TAB, LF, VT,
    FF, CR, SPACE, U+0085, U+00A0, U+1680, U+2000..U+200A, U+2028, U+2029,
    U+202F, U+205F, U+3000. *)
Definition space_rune (enc : list ascii) : bool :=
  match nat_of_ascii <$> enc with
  | [b] => ((9 <=? b) && (b <=? 13)) || (b =? 32)
  | [194; b] => (b =? 133) || (b =? 160)
  | [225; 154; 128] => true
  | [226; 128; b] =>
      ((128 <=? b) && (b <=? 138)) || (b =? 168) || (b =? 169) || (b =? 175)
  | [226; 129; 159] => true
  | [227; 128; 128] => true
  | _ => false
  end%nat.

(** The same test written with comparisons, on the values of the bytes. *)
Definition space_nats (ns : list nat) : bool :=
  match ns with
  | [b] => ((9 <=? b) && (b <=? 13)) || (b =? 32)
  | [x; y] => (x =? 194) && ((y =? 133) || (y =? 160))
  | [x; y; z] =>
      ((x =? 225) && (y =? 154) && (z =? 128))
      || ((x =? 226) && (y =? 128)
          && (((128 <=? z) && (z <=? 138)) || (z =? 168) || (z =? 169)
              || (z =? 175)))
      || ((x =? 226) && (y =? 129) && (z =? 159))
      || ((x =? 227) && (y =? 128) && (z =? 128))
  | _ => false
  end%nat.

(** The bytes these encodings are made of: ASCII white space, or bytes
    outside ASCII. *)
Definition space_byte (c : ascii) : Prop :=
  let n := nat_of_ascii c in
  (9 ≤ n ≤ 13)%nat ∨ n = 32%nat ∨ (128 ≤ n)%nat.

(** Width in bytes of the white-space rune that starts [s]; 0 if [s] does
    not start with one. *)
Definition space_width (s : list ascii) : nat :=
  if space_rune (take 1 s) then 1
  else if space_rune (take 2 s) then 2
  else if space_rune (take 3 s) then 3
  else 0.

(** Width of the white-space rune that ends [s] (what
    [utf8.DecodeLastRuneInString] finds), given the reversed bytes. *)
Definition last_space_width (r : list ascii) : nat :=
  if space_rune (reverse (take 1 r)) then 1
  else if space_rune (reverse (take 2 r)) then 2
  else if space_rune (reverse (take 3 r)) then 3
  else 0.

Fixpoint trim_go (width : list ascii → nat) (fuel : nat) (s : list ascii)
  : list ascii :=
  match fuel with
  | O => s
  | S fuel' =>
      match width s with
      | O => s
      | w => trim_go width fuel' (drop w s)
      end
  end.

Definition trim_left (s : list ascii) : list ascii :=
  trim_go space_width (length s) s.

Definition trim_right (s : list ascii) : list ascii :=
  reverse (trim_go last_space_width (length s) (reverse s)).

(** [strings.TrimSpace]: all leading and trailing white space removed. *)
Definition TrimSpace (s : string) : string :=
  of_bytes (trim_right (trim_left (bytes s))).

(** [strings.HasPrefix] and [strings.HasSuffix], on bytes. *)
Fixpoint has_prefix (prefix s : list ascii) : bool :=
  match prefix, s with
  | [], _ => true
  | c :: prefix', d :: s' => Ascii.eqb c d && has_prefix prefix' s'
  | _ :: _, [] => false
  end.

Definition has_suffix (suffix s : list ascii) : bool :=
  has_prefix (reverse suffix) (reverse s).

(** [strings.TrimSuffix(s, suffix)] *)
Definition TrimSuffix (s suffix : string) : string :=
  if has_suffix (bytes suffix) (bytes s)
  then of_bytes (take (length (bytes s) - length (bytes suffix)) (bytes s))
  else s.

(** [strings.Index(s, substr)]: where [substr] first occurs in [s]. *)
Fixpoint index_of (substr s : list ascii) : option nat :=
  if has_prefix substr s then Some 0
  else match s with
       | [] => None
       | _ :: s' => S <$> index_of substr s'
       end.

(** The occurrences of [old] replaced from left to right, each starting
    after the one before it. *)
Fixpoint replace_go (fuel : nat) (old new s : list ascii) : list ascii :=
  match fuel with
  | O => s
  | S fuel' =>
      if has_prefix old s
      then new ++ replace_go fuel' old new (drop (length old) s)
      else match s with
           | [] => []
           | c :: s' => c :: replace_go fuel' old new s'
           end
  end.

(** [strings.ReplaceAll(s, old, new)] for an [old] that is not empty, as
    in its one use here.  (With an empty [old], Go inserts [new] around
    every rune; that case is not what this definition computes.) *)
Definition ReplaceAll (s old new : string) : string :=
  of_bytes (replace_go (S (length (bytes s))) (bytes old) (bytes new) (bytes s)).

End strings.

(** ** Go's [regexp]: the fragment the validator's pattern uses *)

Module regexp.

Inductive re : Type :=
| Class (p : ascii → bool)          (* [..] *)
| Seq (a b : re)                    (* ab *)
| Opt (a : re)                      (* (a)? *)
| Rep (n : nat) (a : re).           (* a{0,n} *)

(** Anchored matching by continuation: [accept r s k] holds when some
    prefix of [s] matches [r] and [k] accepts what is left. *)
Fixpoint accept (r : re) (s : list ascii) (k : list ascii → bool) : bool :=
  match r with
  | Class p =>
      match s with
      | c :: s' => p c && k s'
      | [] => false
      end
  | Seq a b => accept a s (λ s', accept b s' k)
  | Opt a => accept a s k || k s
  | Rep n a =>
      (fix rep (n : nat) (s : list ascii) : bool :=
         match n with
         | O => k s
         | S n' => accept a s (rep n') || k s
         end) n s
  end.

(** [^r$] against the whole string. *)
Definition MatchString (r : re) (s : string) : bool :=
  accept r (strings.bytes s) (λ rest, bool_decide (rest = [])).

(** The language of a pattern, as a relation. *)
Inductive lang : re → list ascii → Prop :=
| lang_class p c : p c = true → lang (Class p) [c]
| lang_seq a b s t : lang a s → lang b t → lang (Seq a b) (s ++ t)
| lang_opt_none a : lang (Opt a) []
| lang_opt_some a s : lang a s → lang (Opt a) s
| lang_rep_nil n a : lang (Rep n a) []
| lang_rep_cons n a s t :
    lang a s → lang (Rep n a) t → lang (Rep (S n) a) (s ++ t).

End regexp.

(** ** Package [common]: the constants used here *)

Module common.

Definition Everest : string := "everest".
Definition SystemNamespace : string := "everest-system".
Definition MonitoringNamespace : string := "everest-monitoring".
Definition KubernetesManagedByLabel : string := "app.kubernetes.io/managed-by".

End common.

(** ** Go maps: iteration order

    [for k := range m] visits every key of [m] once, in an order the
    language leaves unspecified.  A [MapOrder] is one such choice. *)

Record MapOrder : Type := {
  range_keys : gset string → list string;
  range_keys_perm : ∀ m, range_keys m ≡ₚ elements m
}.

Program Definition elements_order : MapOrder :=
  {| range_keys := elements |}.
Next Obligation. done. Qed.

Program Definition reverse_order : MapOrder :=
  {| range_keys m := reverse (elements m) |}.
Next Obligation. intros m. apply reverse_Permutation. Qed.

(** ** Package [namespaces] *)

Module namespaces.

(** Go errors: a message, and for [%w] the error wrapped. *)
Inductive error : Type :=
| errorString (msg : string)
| wrapError (msg : string) (inner : error).

Fixpoint Error (e : error) : string :=
  match e with
  | errorString msg => msg
  | wrapError msg inner => msg +:+ Error inner
  end.

Definition ErrNSEmpty : error :=
  errorString "namespace list is empty. Specify at least one namespace".

Definition ErrNSReserved (ns : string) : error :=
  errorString ("'" +:+ ns +:+
    "' namespace is reserved for Everest internals. Please specify another namespace").

Definition ErrNameNotRFC1035Compatible (fieldName : string) : error :=
  errorString ("'" +:+ fieldName +:+
    "' is not RFC 1035 compatible. The name should contain only lowercase alphanumeric characters or '-', start with an alphabetic character, end with an alphanumeric character").

Definition in_range (lo hi c : ascii) : bool :=
  (nat_of_ascii lo <=? nat_of_ascii c)%nat && (nat_of_ascii c <=? nat_of_ascii hi)%nat.

Definition lower (c : ascii) : bool := in_range "a" "z" c.
Definition digit (c : ascii) : bool := in_range "0" "9" c.
Definition dash (c : ascii) : bool := Ascii.eqb c "-".

(** [^[a-z]([-a-z0-9]{0,61}[a-z0-9])?$] *)
Definition rfc1035Regex : regexp.re :=
  regexp.Seq (regexp.Class lower)
    (regexp.Opt
       (regexp.Seq
          (regexp.Rep 61 (regexp.Class (λ c, dash c || lower c || digit c)))
          (regexp.Class (λ c, lower c || digit c)))).

Definition validateRFC1035 (s : string) : option error :=
  if negb (regexp.MatchString rfc1035Regex s)
  then Some (ErrNameNotRFC1035Compatible s)
  else None.

Section Validate.

(** [kubernetes.OLMNamespace], declared in package [kubernetes]. *)
Variable OLMNamespace : string.

Definition reserved (ns : string) : bool :=
  bool_decide (ns = common.SystemNamespace)
  || bool_decide (ns = common.MonitoringNamespace)
  || bool_decide (ns = OLMNamespace).

(** The loop of [ValidateNamespaces] over the fields of the split, with the
    map [m] built so far. *)
Fixpoint validate_loop (nsList : list string) (m : gset string)
  : error + gset string :=
  match nsList with
  | [] => inr m
  | ns :: rest =>
      let ns := strings.TrimSpace ns in
      if bool_decide (ns = "") then validate_loop rest m
      else if reserved ns then inl (ErrNSReserved ns)
      else match validateRFC1035 ns with
           | Some err => inl err
           | None => validate_loop rest ({[ ns ]} ∪ m)
           end
  end.

(** Whether the loop lets a token pass, and the error it returns for a
    token it does not let pass. *)
Definition passes (ns : string) : bool :=
  negb (reserved ns) && regexp.MatchString rfc1035Regex ns.

Definition rejection (ns : string) : error :=
  if reserved ns then ErrNSReserved ns else ErrNameNotRFC1035Compatible ns.

Definition ValidateNamespaces (o : MapOrder) (str : string)
  : error + list string :=
  match validate_loop (strings.Split str) ∅ with
  | inl err => inl err
  | inr m =>
      let list := range_keys o m in
      if (length list =? 0)%nat then inl ErrNSEmpty else inr list
  end.

End Validate.

(** *** Configuration *)

Record OperatorConfig : Type := {
  PG : bool;
  PSMDB : bool;
  PXC : bool
}.

(** [NamespaceAddConfig]; of the embedded [helm.CLIOptions] the two fields
    read here, [ChartDir] and [RepoURL]. *)
Record NamespaceAddConfig : Type := {
  Namespaces : string;
  SkipWizard : bool;
  KubeconfigPath : string;
  DisableTelemetry : bool;
  TakeOwnership : bool;
  Operator : OperatorConfig;
  Pretty : bool;
  Update : bool;
  NamespaceList : list string;
  ChartDir : string;
  RepoURL : string
}.

Definition set_TakeOwnership (b : bool) (c : NamespaceAddConfig)
  : NamespaceAddConfig :=
  {| Namespaces := Namespaces c; SkipWizard := SkipWizard c;
     KubeconfigPath := KubeconfigPath c;
     DisableTelemetry := DisableTelemetry c; TakeOwnership := b;
     Operator := Operator c; Pretty := Pretty c; Update := Update c;
     NamespaceList := NamespaceList c; ChartDir := ChartDir c;
     RepoURL := RepoURL c |}.

Definition set_NamespaceList (l : list string) (c : NamespaceAddConfig)
  : NamespaceAddConfig :=
  {| Namespaces := Namespaces c; SkipWizard := SkipWizard c;
     KubeconfigPath := KubeconfigPath c;
     DisableTelemetry := DisableTelemetry c;
     TakeOwnership := TakeOwnership c;
     Operator := Operator c; Pretty := Pretty c; Update := Update c;
     NamespaceList := l; ChartDir := ChartDir c;
     RepoURL := RepoURL c |}.

Definition set_SkipWizard (b : bool) (c : NamespaceAddConfig)
  : NamespaceAddConfig :=
  {| Namespaces := Namespaces c; SkipWizard := b;
     KubeconfigPath := KubeconfigPath c;
     DisableTelemetry := DisableTelemetry c;
     TakeOwnership := TakeOwnership c;
     Operator := Operator c; Pretty := Pretty c; Update := Update c;
     NamespaceList := NamespaceList c; ChartDir := ChartDir c;
     RepoURL := RepoURL c |}.

Definition set_Namespaces (str : string) (c : NamespaceAddConfig)
  : NamespaceAddConfig :=
  {| Namespaces := str; SkipWizard := SkipWizard c;
     KubeconfigPath := KubeconfigPath c;
     DisableTelemetry := DisableTelemetry c;
     TakeOwnership := TakeOwnership c;
     Operator := Operator c; Pretty := Pretty c; Update := Update c;
     NamespaceList := NamespaceList c; ChartDir := ChartDir c;
     RepoURL := RepoURL c |}.

Definition set_ChartDir (d : string) (c : NamespaceAddConfig)
  : NamespaceAddConfig :=
  {| Namespaces := Namespaces c; SkipWizard := SkipWizard c;
     KubeconfigPath := KubeconfigPath c;
     DisableTelemetry := DisableTelemetry c;
     TakeOwnership := TakeOwnership c;
     Operator := Operator c; Pretty := Pretty c; Update := Update c;
     NamespaceList := NamespaceList c; ChartDir := d;
     RepoURL := RepoURL c |}.

(** [populateNamespaces]: [ask] is the prompt of the wizard
    ([survey.AskOne] with the configured value as default). *)
Definition populateNamespaces (OLMNamespace : string) (o : MapOrder)
    (ask : string → error + string) (cfg : NamespaceAddConfig)
    (wizard : bool) : error + NamespaceAddConfig :=
  let answer :=
    if wizard && negb (SkipWizard cfg) then ask (Namespaces cfg)
    else inr (Namespaces cfg) in
  match answer with
  | inl err => inl err
  | inr namespaces =>
      match ValidateNamespaces OLMNamespace o namespaces with
      | inl err => inl err
      | inr list => inr (set_NamespaceList list cfg)
      end
  end.

(** *** The cluster and the release installer *)

(** [v1.Namespace]: the labels are all that is read. *)
Record Namespace : Type := { Labels : gmap string string }.

(** [helm.Installer] and [helm.ChartOptions], as filled in here. *)
Record Installer (V : Type) : Type := {
  ReleaseName : string;
  ReleaseNamespace : string;
  Values : V;
  CreateReleaseNamespace : bool
}.
Arguments ReleaseName {V} _.
Arguments ReleaseNamespace {V} _.
Arguments Values {V} _.
Arguments CreateReleaseNamespace {V} _.

Record ChartOptions : Type := {
  Directory : string;
  URL : string;
  Name : string;
  Version : string
}.

(** What the package calls outside itself.  [W] is the state of the world
    (cluster, Helm releases, files), [V] the type of merged Helm values. *)
Class World (W V : Type) : Type := {
  (* kubeClient.GetNamespace *)
  GetNamespace : W → string → error + Namespace;
  (* k8serrors.IsNotFound *)
  IsNotFound : error → bool;
  (* helmutils.MergeVals(opts, nil) *)
  MergeVals : list string → error + V;
  (* path.Join *)
  path_Join : string → string → string;
  (* helm.EverestDBNamespaceChartName *)
  EverestDBNamespaceChartName : string;
  (* helm.Installer.Init *)
  Installer_Init : W → string → Installer V → ChartOptions → W * option error;
  (* helm.Installer.Install *)
  Installer_Install : W → Installer V → W * option error;
  (* cliutils.CheckHelmInstallation *)
  CheckHelmInstallation : W → error + string;
  (* version.IsDev *)
  IsDev : string → bool;
  (* helmutils.SetupEverestDevChart: the chart directory it sets *)
  SetupEverestDevChart : W → W * (error + string);
  (* the cleanup function SetupEverestDevChart returns *)
  cleanup : W → W
}.

Inductive event (V : Type) : Type :=
| EvGetNamespace (namespace : string)
| EvInit (kubeconfig : string) (i : Installer V) (o : ChartOptions)
| EvInstall (i : Installer V).
Arguments EvGetNamespace {V} _.
Arguments EvInit {V} _ _ _.
Arguments EvInstall {V} _.

(** A call either returns or panics ([Must]). *)
Inductive result (A : Type) : Type :=
| Normal (a : A)
| Panic (e : error).
Arguments Normal {A} _.
Arguments Panic {A} _.

Definition isManagedByEverest (ns : Namespace) : bool :=
  match Labels ns !! common.KubernetesManagedByLabel with
  | Some val => bool_decide (val = common.Everest)
  | None => false
  end.

Definition dbNamespaceSubChartPath : string := "/charts/everest-db-namespace".

Definition fmt_bool (b : bool) : string := if b then "true" else "false".

Definition getValues (cfg : NamespaceAddConfig) : list string :=
  [ "cleanupOnUninstall=false";
    "pxc=" +:+ fmt_bool (PXC (Operator cfg));
    "postgresql=" +:+ fmt_bool (PG (Operator cfg));
    "psmdb=" +:+ fmt_bool (PSMDB (Operator cfg));
    "telemetry=" +:+ fmt_bool (negb (DisableTelemetry cfg)) ].

Section Provision.

Context {W V : Type} `{!World W V}.

(** State threaded through the calls: the world and the log of the calls
    made into it. *)
Definition state : Type := W * list (event V).
Definition M (A : Type) : Type := state → result A * state.

Definition ret {A : Type} (a : A) : M A := λ st, (Normal a, st).

Definition bind {A B : Type} (m : M A) (f : A → M B) : M B :=
  λ st, match m st with
        | (Normal a, st') => f a st'
        | (Panic e, st') => (Panic e, st')
        end.

Definition panic {A : Type} (e : error) : M A := λ st, (Panic e, st).

Notation "x <~ m ;; k" := (bind m (λ x, k))
  (at level 100, m at next level, right associativity).

Definition call_GetNamespace (namespace : string) : M (error + Namespace) :=
  λ '(w, tr), (Normal (GetNamespace w namespace),
               (w, tr ++ [EvGetNamespace namespace])).

Definition call_Init (kubeconfig : string) (i : Installer V)
    (o : ChartOptions) : M (option error) :=
  λ '(w, tr), let '(w', r) := Installer_Init w kubeconfig i o in
              (Normal r, (w', tr ++ [EvInit kubeconfig i o])).

Definition call_Install (i : Installer V) : M (option error) :=
  λ '(w, tr), let '(w', r) := Installer_Install w i in
              (Normal r, (w', tr ++ [EvInstall i])).

Definition Must {A : Type} (r : error + A) : M A :=
  match r with
  | inl err => panic err
  | inr v => ret v
  end.

Definition namespaceExists (namespace : string)
  : M (bool * bool * option error) :=
  r <~ call_GetNamespace namespace ;;
  match r with
  | inl err =>
      if IsNotFound err then ret (false, false, None)
      else ret (false, false,
                Some (wrapError "cannot check if namesapce exists: " err))
  | inr ns => ret (true, isManagedByEverest ns, None)
  end.

(** Lines 201-221 of [provisionDBNamespace]: what runs once the checks on
    the namespace have passed. *)
Definition installRelease (cfg : NamespaceAddConfig)
    (version namespace : string) (nsExists : bool) : M (option error) :=
  let chartDir :=
    if bool_decide (ChartDir cfg ≠ "")
    then path_Join (ChartDir cfg) dbNamespaceSubChartPath
    else "" in
  values <~ Must (MergeVals (getValues cfg)) ;;
  let installer :=
    {| ReleaseName := namespace;
       ReleaseNamespace := namespace;
       Values := values;
       CreateReleaseNamespace := negb nsExists |} in
  err <~ call_Init (KubeconfigPath cfg) installer
           {| Directory := chartDir;
              URL := RepoURL cfg;
              Name := EverestDBNamespaceChartName;
              Version := version |} ;;
  match err with
  | Some err => ret (Some (wrapError "could not initialize Helm installer: " err))
  | None => call_Install installer
  end.

Definition errDoesNotExist (namespace : string) : error :=
  errorString ("namespace (" +:+ namespace +:+ ") does not exist").
Definition errNotManaged (namespace : string) : error :=
  errorString ("namespace (" +:+ namespace +:+ ") is not managed by Everest").
Definition errAlreadyExists (namespace : string) : error :=
  errorString ("namespace (" +:+ namespace +:+ ") already exists").

Definition provisionDBNamespace (cfg : NamespaceAddConfig)
    (version namespace : string) : M (option error) :=
  r <~ namespaceExists namespace ;;
  let '(nsExists, ownedByEverest, err) := r in
  match err with
  | Some err => ret (Some err)
  | None =>
      if Update cfg then
        if negb nsExists then ret (Some (errDoesNotExist namespace))
        else if negb ownedByEverest then ret (Some (errNotManaged namespace))
        else installRelease cfg version namespace nsExists
      else if nsExists && negb (TakeOwnership cfg)
      then ret (Some (errAlreadyExists namespace))
      else installRelease cfg version namespace nsExists
  end.

(** [steps.Step] *)
Record Step : Type := {
  Desc : string;
  F : M (option error)
}.

Definition newStepInstallNamespace (cfg : NamespaceAddConfig)
    (version namespace : string) : Step :=
  let action := if Update cfg then "Updating" else "Installing" in
  {| Desc := action +:+ " namespace '" +:+ namespace +:+ "'";
     F := provisionDBNamespace cfg version namespace |}.

(** Modelled from the spec: [steps.RunStepsWithSpinner] of package
    [pkg/cli/steps] is not part of the sources at hand.  The steps run
    strictly sequentially in the order given, and the first failure halts
    the remaining ones. *)
Fixpoint RunStepsWithSpinner (installSteps : list Step) : M (option error) :=
  match installSteps with
  | [] => ret None
  | s :: rest =>
      err <~ F s ;;
      match err with
      | Some err => ret (Some err)
      | None => RunStepsWithSpinner rest
      end
  end.

(** The deferred [cleanup()] runs when [Run] returns or panics. *)
Definition defer_cleanup {A : Type} (m : M A) : M A :=
  λ st, let '(r, (w, tr)) := m st in (r, (cleanup w, tr)).

Definition Run (cfg : NamespaceAddConfig) : M (option error) :=
  λ '(w, tr),
    match CheckHelmInstallation w with
    | inl err => (Normal (Some err), (w, tr))
    | inr ver =>
        let body (cfg : NamespaceAddConfig) : M (option error) :=
          RunStepsWithSpinner
            (newStepInstallNamespace cfg ver <$> NamespaceList cfg) in
        if IsDev ver && bool_decide (ChartDir cfg = "") then
          match SetupEverestDevChart w with
          | (w', inl err) => (Normal (Some err), (w', tr))
          | (w', inr dir) => defer_cleanup (body (set_ChartDir dir cfg)) (w', tr)
          end
        else body cfg (w, tr)
    end.

(** The namespaces the log shows a step was started for: every run of
    [provisionDBNamespace] begins with one [GetNamespace]. *)
Definition started (tr : list (event V)) : list string :=
  omap (λ e, match e with EvGetNamespace ns => Some ns | _ => None end) tr.

(** The calls made to the release installer. *)
Definition is_installer_call (e : event V) : bool :=
  match e with
  | EvGetNamespace _ => false
  | EvInit _ _ _ | EvInstall _ => true
  end.

Definition installer_calls (tr : list (event V)) : list (event V) :=
  filter (λ e, Is_true (is_installer_call e)) tr.

End Provision.

(** What one step asks of the installer: the release is named after the
    namespace and installed into it, with the values of the configuration,
    from the chart of database namespaces in the given version. *)
Definition describes `{!World W V} (cfg : NamespaceAddConfig)
    (version namespace : string) (i : Installer V) (o : ChartOptions) : Prop :=
  ReleaseName i = namespace ∧ ReleaseNamespace i = namespace
  ∧ MergeVals (getValues cfg) = inr (Values i)
  ∧ Name o = EverestDBNamespaceChartName ∧ URL o = RepoURL cfg
  ∧ Version o = version
  ∧ Directory o = (if bool_decide (ChartDir cfg ≠ "")
                   then path_Join (ChartDir cfg) dbNamespaceSubChartPath
                   else "").

(** The calls a run over the namespaces [l] may log. *)
Definition event_of `{!World W V} (cfg : NamespaceAddConfig)
    (version : string) (l : list string) (e : event V) : Prop :=
  match e with
  | EvGetNamespace namespace => namespace ∈ l
  | EvInit kubeconfig i o =>
      kubeconfig = KubeconfigPath cfg ∧ ReleaseName i ∈ l
      ∧ describes cfg version (ReleaseName i) i o
  | EvInstall i => ReleaseName i ∈ l ∧ ReleaseNamespace i = ReleaseName i
  end.

(** *** The wizard *)

Definition ErrNoOperatorsSelected : error :=
  errorString "no operators selected for installation. Minimum one operator must be selected".

Definition set_Operator (op : OperatorConfig) (c : NamespaceAddConfig)
  : NamespaceAddConfig :=
  {| Namespaces := Namespaces c; SkipWizard := SkipWizard c;
     KubeconfigPath := KubeconfigPath c;
     DisableTelemetry := DisableTelemetry c;
     TakeOwnership := TakeOwnership c;
     Operator := op; Pretty := Pretty c; Update := Update c;
     NamespaceList := NamespaceList c; ChartDir := ChartDir c;
     RepoURL := RepoURL c |}.

(** The labels of [operatorOpts], in its order: entry 0 points to [PXC],
    entry 1 to [PSMDB], entry 2 to [PG]. *)
Definition operatorLabels : list string := ["MySQL"; "MongoDB"; "PostgreSQL"].

(** The labels of the flags that are set. *)
Definition operatorDefaults (op : OperatorConfig) : list string :=
  (if PXC op then ["MySQL"] else [])
  ++ (if PSMDB op then ["MongoDB"] else [])
  ++ (if PG op then ["PostgreSQL"] else []).


(** [*operatorOpts[i].boolFlag = true]; [None] when [i] is out of range. *)
Definition set_flag (i : Z) (op : OperatorConfig) : option OperatorConfig :=
  if (i =? 0)%Z then Some {| PG := PG op; PSMDB := PSMDB op; PXC := true |}
  else if (i =? 1)%Z then Some {| PG := PG op; PSMDB := true; PXC := PXC op |}
  else if (i =? 2)%Z then Some {| PG := true; PSMDB := PSMDB op; PXC := PXC op |}
  else None.

(** The indexes of [operatorOpts]. *)
Definition in_range_index (i : Z) : Prop := (0 ≤ i < 3)%Z.

Fixpoint select_flags (opIndexes : list Z) (op : OperatorConfig)
  : result OperatorConfig :=
  match opIndexes with
  | [] => Normal op
  | i :: rest =>
      match set_flag i op with
      | Some op' => select_flags rest op'
      | None => Panic (errorString "index out of range")
      end
  end.

(** [populateOperators]: [askOperators defaults options] is the
    multi-select prompt, which answers with the indexes chosen.  The result
    is the configuration after the call and the error returned. *)
Definition populateOperators
    (askOperators : list string → list string → error + list Z)
    (cfg : NamespaceAddConfig) : result (NamespaceAddConfig * option error) :=
  match askOperators (operatorDefaults (Operator cfg)) operatorLabels with
  | inl err => Normal (cfg, Some err)
  | inr opIndexes =>
      if (length opIndexes =? 0)%nat && (0 <? length (NamespaceList cfg))%nat
      then Normal (cfg, Some ErrNoOperatorsSelected)
      else
        match select_flags opIndexes
                {| PG := false; PSMDB := false; PXC := false |} with
        | Normal op => Normal (set_Operator op cfg, None)
        | Panic e => Panic e
        end
  end.

(** [Populate] *)
Definition Populate (OLMNamespace : string) (o : MapOrder)
    (ask : string → error + string)
    (askOperators : list string → list string → error + list Z)
    (cfg : NamespaceAddConfig) (askNamespaces askOps : bool)
  : result (NamespaceAddConfig * option error) :=
  match populateNamespaces OLMNamespace o ask cfg askNamespaces with
  | inl err => Normal (cfg, Some err)
  | inr cfg =>
      if askOps && (0 <? length (NamespaceList cfg))%nat
         && negb (SkipWizard cfg)
      then populateOperators askOperators cfg
      else Normal (cfg, None)
  end.

End namespaces.

(** ** Package [api]: the restore handlers *)

Module api.

(** Errors of the package.  [errInsufficientPermissions] is the sentinel
    that [enforce] returns on a denial; [wrapError] stands for [%w] and
    [errors.Join]. *)
Inductive error : Type :=
| errInsufficientPermissions
| errorString (msg : string)
| wrapError (msg : string) (inner : error).

(** [errors.Is(err, errInsufficientPermissions)] *)
Fixpoint is_insufficient (err : error) : bool :=
  match err with
  | errInsufficientPermissions => true
  | errorString _ => false
  | wrapError _ inner => is_insufficient inner
  end.

(** The resources and actions of package [rbac] named by the handlers. *)
Inductive resource : Type :=
| ResourceDatabaseClusterCredentials
| ResourceDatabaseClusterBackups
| ResourceDatabaseClusterRestores.

Inductive action : Type :=
| ActionCreate
| ActionRead
| ActionUpdate
| ActionDelete.

(** [everestv1alpha1.DatabaseClusterRestore], as far as it is read. *)
Record ClusterRestore : Type := {
  GetNamespace : string;
  DBClusterName : string
}.

(** [everestv1alpha1.DatabaseCluster]: its name and [Status.Status]. *)
Record DatabaseCluster : Type := {
  GetName : string;
  Status : string
}.

Definition AppStateRestoring : string := "restoring".

(** The request body [DatabaseClusterRestore] of the generated API: [Spec]
    and [DbClusterBackupName] are pointers. *)
Record RestoreSpec : Type := {
  DbClusterName : string;
  DbClusterBackupName : option string
}.

Record RestoreBody : Type := { Spec : option RestoreSpec }.

Definition databaseClusterRestoreKind : string := "databaseclusterrestores".

(** What a handler does with the request. *)
Inductive response : Type :=
| JSON (status : nat) (message : string)  (* return ctx.JSON(status, Error{..}) *)
| ReturnErr (err : error)                 (* return err *)
| Proxy (namespace kind name : string)    (* return e.proxyKubernetes(..) *)
| NilPanic.                               (* nil pointer dereference *)

Definition StatusBadRequest : nat := 400.
Definition StatusInternalServerError : nat := 500.

Definition restoreInProgressMessage : string :=
  "Another restore process for this DB cluster is currently in progress. Wait for its completion before initiating another.".

Section Handlers.

(** [e.enforce], declared elsewhere in the package: [None] when the user
    is allowed, [errInsufficientPermissions] (possibly wrapped) on a denial,
    another error when the check itself fails. *)
Variable enforce : string → resource → action → string → option error.

(** [rbac.ObjectName] *)
Variable ObjectName : string → string → string.

(** [err.Error()] *)
Variable Error : error → string.

Definition enforceDBRestoreRBAC (user namespace srcBackupName dbClusterName : string)
  : option error :=
  match enforce user ResourceDatabaseClusterCredentials ActionRead
          (ObjectName namespace dbClusterName) with
  | Some err => Some err
  | None =>
      match enforce user ResourceDatabaseClusterBackups ActionRead
              (ObjectName namespace srcBackupName) with
      | Some err => Some err
      | None =>
          match enforce user ResourceDatabaseClusterRestores ActionRead
                  (ObjectName namespace dbClusterName) with
          | Some err => Some err
          | None => None
          end
      end
  end.

Definition enforceDBClusterListRestoreRBAC (user : string)
    (restore : ClusterRestore) (act : action) : option error :=
  match enforce user ResourceDatabaseClusterRestores act
          (ObjectName (GetNamespace restore) (DBClusterName restore)) with
  | Some err => Some err
  | None => None
  end.

(** *** The list filter of [ListDatabaseClusterRestores] *)

(** [unstructured.Unstructured] and
    [runtime.DefaultUnstructuredConverter.FromUnstructured]. *)
Variable Item : Type.
Variable FromUnstructured : Item → error + ClusterRestore.

(** The loop over [l.Items], with the slice [allowed] built so far. *)
Fixpoint filter_loop (user : string) (items allowed : list Item)
  : error + list Item :=
  match items with
  | [] => inr allowed
  | obj :: rest =>
      match FromUnstructured obj with
      | inl err => inl err
      | inr restore =>
          match enforceDBClusterListRestoreRBAC user restore ActionRead with
          | Some err =>
              if is_insufficient err then filter_loop user rest allowed
              else inl err
          | None => filter_loop user rest (allowed ++ [obj])
          end
      end
  end.

(** The closure [rbacFilter]: the items of [l] after the call, and the
    error returned.  [l.Items] is assigned only on success. *)
Definition rbacFilter (user : string) (items : list Item)
  : list Item * option error :=
  match filter_loop user items [] with
  | inl err => (items, Some err)
  | inr allowed => (allowed, None)
  end.

(** What the loop body makes of one item. *)
Inductive verdict : Type :=
| Allowed
| Denied
| DecodeFailed (err : error)
| CheckFailed (err : error).

Definition item_verdict (user : string) (obj : Item) : verdict :=
  match FromUnstructured obj with
  | inl err => DecodeFailed err
  | inr restore =>
      match enforceDBClusterListRestoreRBAC user restore ActionRead with
      | None => Allowed
      | Some err => if is_insufficient err then Denied else CheckFailed err
      end
  end.

Definition allowed (user : string) (obj : Item) : bool :=
  match item_verdict user obj with Allowed => true | _ => false end.

Definition denied (user : string) (obj : Item) : bool :=
  match item_verdict user obj with Denied => true | _ => false end.

Definition failed_with (user : string) (err : error) (obj : Item) : Prop :=
  item_verdict user obj = DecodeFailed err
  ∨ item_verdict user obj = CheckFailed err.

(** *** [CreateDatabaseClusterRestore] *)

(** The request as the handler sees it: [rbac.GetUser], the decoded body
    ([getBodyFromContext]), [validateDatabaseClusterRestore] and
    [kubeClient.GetDatabaseCluster]. *)
Record Request : Type := {
  GetUser : error + string;
  getBodyFromContext : error + RestoreBody;
  validateDatabaseClusterRestore : string → RestoreBody → option error;
  GetDatabaseCluster : string → string → error + DatabaseCluster
}.

Definition CreateDatabaseClusterRestore (ctx : Request) (namespace : string)
  : response :=
  match GetUser ctx with
  | inl err =>
      JSON StatusInternalServerError
        ("Failed to get user from context: " +:+ Error err)
  | inr user =>
      match getBodyFromContext ctx with
      | inl err =>
          JSON StatusBadRequest
            "Could not get DatabaseClusterRestore from the request body"
      | inr restore =>
          match validateDatabaseClusterRestore ctx namespace restore with
          | Some err => JSON StatusBadRequest (Error err)
          | None =>
              match Spec restore with
              | None => NilPanic
              | Some spec =>
                  match GetDatabaseCluster ctx namespace (DbClusterName spec) with
                  | inl err => JSON StatusInternalServerError (Error err)
                  | inr dbCluster =>
                      let srcBkp := default "" (DbClusterBackupName spec) in
                      match enforceDBRestoreRBAC user namespace srcBkp
                              (GetName dbCluster) with
                      | Some err => ReturnErr err
                      | None =>
                          if bool_decide (Status dbCluster = AppStateRestoring)
                          then JSON StatusBadRequest restoreInProgressMessage
                          else Proxy namespace databaseClusterRestoreKind ""
                      end
                  end
              end
          end
      end
  end.

End Handlers.

(** *** The handlers of one restore *)

Definition StatusOK : nat := 200.

(** A response that may carry the object: [ctx.JSON(http.StatusOK, rs)]. *)
Inductive reply : Type :=
| Plain (r : response)
| Object (status : nat) (rs : ClusterRestore).

Section Restore.

Variable enforce : string → resource → action → string → option error.
Variable ObjectName : string → string → string.
Variable Error : error → string.

(** [attachK8sTypeMeta] *)
Variable attachK8sTypeMeta : ClusterRestore → ClusterRestore.

(** The request of these handlers: beside what [Request] has, the restore
    as the cluster holds it ([kubeClient.GetDatabaseClusterRestore]) and
    [validateMetadata] on the body. *)
Record RestoreRequest : Type := {
  request : Request;
  kubeClient_GetDatabaseClusterRestore : string → string → error + ClusterRestore;
  validateMetadata : RestoreBody → option error
}.

Definition DeleteDatabaseClusterRestore (ctx : RestoreRequest)
    (namespace name : string) : response :=
  match GetUser (request ctx) with
  | inl err =>
      JSON StatusInternalServerError
        ("Failed to get user from context" +:+ Error err)
  | inr user =>
      match kubeClient_GetDatabaseClusterRestore ctx namespace name with
      | inl err => ReturnErr err
      | inr rs =>
          match enforceDBClusterListRestoreRBAC enforce ObjectName user rs
                  ActionDelete with
          | Some err => ReturnErr err
          | None => Proxy namespace databaseClusterRestoreKind name
          end
      end
  end.

Definition GetDatabaseClusterRestore (ctx : RestoreRequest)
    (namespace name : string) : reply :=
  match GetUser (request ctx) with
  | inl err =>
      Plain (JSON StatusInternalServerError
               ("Failed to get user from context" +:+ Error err))
  | inr user =>
      match kubeClient_GetDatabaseClusterRestore ctx namespace name with
      | inl err => Plain (ReturnErr err)
      | inr rs =>
          match enforceDBClusterListRestoreRBAC enforce ObjectName user rs
                  ActionRead with
          | Some err => Plain (ReturnErr err)
          | None => Object StatusOK (attachK8sTypeMeta rs)
          end
      end
  end.

Definition UpdateDatabaseClusterRestore (ctx : RestoreRequest)
    (namespace name : string) : response :=
  match GetUser (request ctx) with
  | inl err =>
      JSON StatusInternalServerError
        ("Failed to get user from context" +:+ Error err)
  | inr user =>
      match kubeClient_GetDatabaseClusterRestore ctx namespace name with
      | inl err => ReturnErr err
      | inr rs =>
          match enforceDBClusterListRestoreRBAC enforce ObjectName user rs
                  ActionUpdate with
          | Some err => ReturnErr err
          | None =>
              match getBodyFromContext (request ctx) with
              | inl err =>
                  JSON StatusBadRequest
                    "Could not get DatabaseClusterRestore from the request body"
              | inr restore =>
                  match validateMetadata ctx restore with
                  | Some err => JSON StatusBadRequest (Error err)
                  | None =>
                      match validateDatabaseClusterRestore (request ctx)
                              namespace restore with
                      | Some err => JSON StatusBadRequest (Error err)
                      | None => Proxy namespace databaseClusterRestoreKind name
                      end
                  end
              end
          end
      end
  end.

End Restore.

(** *** [ListDatabaseClusterRestores] *)

(** The request of the list handler: the user and the path of the URL. *)
Record ListRequest : Type := {
  list_GetUser : error + string;
  URL_Path : string
}.

(** What the handler answers: an error, or the request as it hands it to
    [proxyKubernetes]: the path and the query values it has set, and the
    user whose grants filter the list. *)
Inductive list_reply : Type :=
| ListJSON (status : nat) (message : string)
| ListProxy (namespace kind name : string) (path : string)
    (query : list (string * string)) (user : string).

Section List.

Variable Error : error → string.

(** [validateRFC1035(name, fieldName)] of this package. *)
Variable validateRFC1035 : string → string → option error.

Definition ListDatabaseClusterRestores (ctx : ListRequest)
    (namespace name : string) : list_reply :=
  match validateRFC1035 name "name" with
  | Some err => ListJSON StatusBadRequest (Error err)
  | None =>
      let val := [("labelSelector", "clusterName=" +:+ name)] in
      let path := URL_Path ctx in
      let path := strings.TrimSuffix path "/restores" in
      let path := strings.TrimSuffix path name in
      let path :=
        strings.ReplaceAll path "database-clusters" "database-cluster-restores" in
      match list_GetUser ctx with
      | inl err =>
          ListJSON StatusInternalServerError
            ("Failed to get user from context" +:+ Error err)
      | inr user =>
          ListProxy namespace databaseClusterRestoreKind "" path val user
      end
  end.

End List.

End api.

(** ** The specification's vocabulary *)

Module spec.

(** The tokens of a raw list: split on comma, trimmed, blanks dropped, in
    the order the caller wrote them. *)
Definition tokens (str : string) : list string :=
  filter (λ t, t ≠ "") (strings.TrimSpace <$> strings.Split str).

(** The caller's order after deduplication: every name once, at the place
    of its first occurrence. *)
Fixpoint dedup (l : list string) : list string :=
  match l with
  | [] => []
  | x :: rest => x :: filter (λ y, y ≠ x) (dedup rest)
  end.

Definition caller_order (str : string) : list string := dedup (tokens str).

(** The DNS-label rule: lowercase alphanumeric characters and '-' only,
    starting with a letter, ending with an alphanumeric character, of
    length 1 to 63. *)
Definition alnum_or_dash (c : ascii) : bool :=
  namespaces.lower c || namespaces.digit c || namespaces.dash c.

Definition alnum (c : ascii) : bool :=
  namespaces.lower c || namespaces.digit c.

Definition dns_label (s : string) : Prop :=
  let bs := strings.bytes s in
  (1 ≤ length bs ≤ 63)%nat
  ∧ Forall (λ c, alnum_or_dash c = true) bs
  ∧ (∃ c, head bs = Some c ∧ namespaces.lower c = true)
  ∧ (∃ c, last bs = Some c ∧ alnum c = true).

(** The resolver states, the requested modes and the decisions of the
    provisioning table. *)
Inductive resolver_state : Type :=
| absent
| present_unmanaged
| present_managed.

Inductive mode : Type :=
| install_no_take_ownership
| install_take_ownership
| update.

Inductive conflict : Type :=
| already_exists
| does_not_exist
| not_managed.

Inductive decision : Type :=
| Install
| UpdateRelease
| Conflict (why : conflict).

Definition decision_table (m : mode) (s : resolver_state) : decision :=
  match m, s with
  | install_no_take_ownership, absent => Install
  | install_no_take_ownership, _ => Conflict already_exists
  | install_take_ownership, _ => Install
  | update, absent => Conflict does_not_exist
  | update, present_unmanaged => Conflict not_managed
  | update, present_managed => UpdateRelease
  end.

Definition present (s : resolver_state) : bool :=
  match s with
  | absent => false
  | present_unmanaged | present_managed => true
  end.

Definition mode_of (cfg : namespaces.NamespaceAddConfig) : mode :=
  if namespaces.Update cfg then update
  else if namespaces.TakeOwnership cfg then install_take_ownership
  else install_no_take_ownership.

(** The state a result of [GetNamespace] resolves to; [None] when the
    fetch failed for another reason than "not found". *)
Definition resolve `{!namespaces.World W V}
    (r : namespaces.error + namespaces.Namespace) : option resolver_state :=
  match r with
  | inl err => if namespaces.IsNotFound err then Some absent else None
  | inr ns =>
      if namespaces.isManagedByEverest ns then Some present_managed
      else Some present_unmanaged
  end.

Definition conflict_error (why : conflict) (namespace : string)
  : namespaces.error :=
  match why with
  | already_exists => namespaces.errAlreadyExists namespace
  | does_not_exist => namespaces.errDoesNotExist namespace
  | not_managed => namespaces.errNotManaged namespace
  end.

End spec.

(** ** A cluster for examples

    Namespaces are a finite map from names to namespace objects; the
    installer labels the namespace it installs into; Helm values stay the
    list of [key=value] strings. *)

Module fake.

Definition notFound : namespaces.error := namespaces.errorString "not found".

Definition managed : namespaces.Namespace :=
  {| namespaces.Labels :=
       {[ common.KubernetesManagedByLabel := common.Everest ]} |}.

Definition unmanaged : namespaces.Namespace :=
  {| namespaces.Labels := ∅ |}.

#[global] Instance world
  : namespaces.World (gmap string namespaces.Namespace) (list string) := {|
  namespaces.GetNamespace w ns :=
    match w !! ns with
    | Some n => inr n
    | None => inl notFound
    end;
  namespaces.IsNotFound err :=
    match err with
    | namespaces.errorString msg => String.eqb msg "not found"
    | namespaces.wrapError _ _ => false
    end;
  namespaces.MergeVals vals := inr vals;
  namespaces.path_Join a b := a +:+ b;
  namespaces.EverestDBNamespaceChartName := "everest-db-namespace";
  namespaces.Installer_Init w _ _ _ := (w, None);
  namespaces.Installer_Install w i :=
    (<[ namespaces.ReleaseNamespace i := managed ]> w, None);
  namespaces.CheckHelmInstallation _ := inr "1.3.0";
  namespaces.IsDev _ := false;
  namespaces.SetupEverestDevChart w := (w, inr "/tmp/everest-chart");
  namespaces.cleanup w := w
|}.

Definition OLMNamespace : string := "everest-olm".

(** Clusters: without namespaces, and with one namespace. *)
Definition empty : gmap string namespaces.Namespace := ∅.

Definition cluster (name : string) (ns : namespaces.Namespace)
  : gmap string namespaces.Namespace := {[ name := ns ]}.

Definition cfg (upd take : bool) (list : list string)
  : namespaces.NamespaceAddConfig :=
  {| namespaces.Namespaces := "";
     namespaces.SkipWizard := true;
     namespaces.KubeconfigPath := "";
     namespaces.DisableTelemetry := false;
     namespaces.TakeOwnership := take;
     namespaces.Operator :=
       {| namespaces.PG := true; namespaces.PSMDB := true;
          namespaces.PXC := true |};
     namespaces.Pretty := false;
     namespaces.Update := upd;
     namespaces.NamespaceList := list;
     namespaces.ChartDir := "";
     namespaces.RepoURL := "" |}.

(** An enforcer for examples: user "admin" may do everything; everybody
    else is denied, except that checks on namespace "broken" fail. *)
Definition enforce (user : string) (_ : api.resource) (_ : api.action)
    (object : string) : option api.error :=
  if String.eqb user "admin" then None
  else if String.prefix "broken/" object
       then Some (api.errorString "policy store unreachable")
       else if String.prefix "team-a/" object then None
       else Some api.errInsufficientPermissions.

Definition ObjectName (namespace name : string) : string :=
  namespace +:+ "/" +:+ name.

Fixpoint Error (err : api.error) : string :=
  match err with
  | api.errInsufficientPermissions => "insufficient permissions"
  | api.errorString msg => msg
  | api.wrapError msg inner => msg +:+ Error inner
  end.

(** Items of a list response: [None] is an object that does not decode. *)
Definition Item : Type := option (string * string).

Definition FromUnstructured (obj : Item) : api.error + api.ClusterRestore :=
  match obj with
  | Some (ns, cluster) =>
      inr {| api.GetNamespace := ns; api.DBClusterName := cluster |}
  | None => inl (api.errorString "cannot decode")
  end.

Definition request (user : string) (backup : option string)
    (status : string) : api.Request :=
  {| api.GetUser := inr user;
     api.getBodyFromContext :=
       inr {| api.Spec :=
                Some {| api.DbClusterName := "db1";
                        api.DbClusterBackupName := backup |} |};
     api.validateDatabaseClusterRestore _ _ := None;
     api.GetDatabaseCluster _ name :=
       inr {| api.GetName := name; api.Status := status |} |}.

(** Prompts that give a fixed answer. *)
Definition answer (namespaces : string) (_ : string)
  : namespaces.error + string := inr namespaces.

Definition select (opIndexes : list Z) (_ _ : list string)
  : namespaces.error + list Z := inr opIndexes.

(** A cluster that can fail: the fault says which call goes wrong. *)
Inductive fault : Type :=
| NoFault
| Unreachable
| NoHelm
| InitFails
| InstallFails
| DevBuild
| DevSetupFails.

Record faulty : Type := {
  failing : fault;
  chart_unpacked : bool;
  objects : gmap string namespaces.Namespace
}.

Definition is_fault (f g : fault) : bool :=
  match f, g with
  | NoFault, NoFault | Unreachable, Unreachable | NoHelm, NoHelm
  | InitFails, InitFails | InstallFails, InstallFails
  | DevBuild, DevBuild | DevSetupFails, DevSetupFails => true
  | _, _ => false
  end.

#[global] Instance faulty_world : namespaces.World faulty (list string) := {|
  namespaces.GetNamespace w ns :=
    if is_fault (failing w) Unreachable
    then inl (namespaces.errorString "connection refused")
    else match objects w !! ns with
         | Some n => inr n
         | None => inl notFound
         end;
  namespaces.IsNotFound err :=
    match err with
    | namespaces.errorString msg => String.eqb msg "not found"
    | namespaces.wrapError _ _ => false
    end;
  namespaces.MergeVals vals := inr vals;
  namespaces.path_Join a b := a +:+ b;
  namespaces.EverestDBNamespaceChartName := "everest-db-namespace";
  namespaces.Installer_Init w _ _ _ :=
    (w, if is_fault (failing w) InitFails
        then Some (namespaces.errorString "chart not found")
        else None);
  namespaces.Installer_Install w i :=
    if is_fault (failing w) InstallFails
    then (w, Some (namespaces.errorString "release failed"))
    else ({| failing := failing w; chart_unpacked := chart_unpacked w;
             objects :=
               <[ namespaces.ReleaseNamespace i := managed ]> (objects w) |},
          None);
  namespaces.CheckHelmInstallation w :=
    if is_fault (failing w) NoHelm
    then inl (namespaces.errorString "everest is not installed")
    else if is_fault (failing w) DevBuild || is_fault (failing w) DevSetupFails
         then inr "0.0.0"
         else inr "1.3.0";
  namespaces.IsDev v := String.eqb v "0.0.0";
  namespaces.SetupEverestDevChart w :=
    if is_fault (failing w) DevSetupFails
    then (w, inl (namespaces.errorString "cannot unpack the chart"))
    else ({| failing := failing w; chart_unpacked := true;
             objects := objects w |}, inr "/tmp/everest-chart");
  namespaces.cleanup w :=
    {| failing := failing w; chart_unpacked := false; objects := objects w |}
|}.

Definition faulty_cluster (f : fault)
    (objs : gmap string namespaces.Namespace) : faulty :=
  {| failing := f; chart_unpacked := false; objects := objs |}.

(** A request for one restore: the cluster holds a restore of [cluster]
    in [namespace] under every name. *)
Definition restore_request (user namespace cluster : string)
  : api.RestoreRequest :=
  {| api.request := request user None "ready";
     api.kubeClient_GetDatabaseClusterRestore _ _ :=
       inr {| api.GetNamespace := namespace; api.DBClusterName := cluster |};
     api.validateMetadata _ := None |}.

(** A [validateRFC1035] for the handlers: the pattern of the validator,
    with the name of the field in the message. *)
Definition validate_name (s field : string) : option api.error :=
  match namespaces.validateRFC1035 s with
  | None => None
  | Some _ => Some (api.errorString (field +:+ " is not RFC 1035 compatible"))
  end.

Definition list_request (user path : string) : api.ListRequest :=
  {| api.list_GetUser := inr user; api.URL_Path := path |}.

End fake.

(** * Properties *)

(** ** Splitting and trimming *)

Module strings_proofs.
Import strings.

Lemma split_comma_nonempty s : split_comma s ≠ [].
Proof.
  destruct s as [|c s]; simpl; [done|].
  destruct (Ascii.eqb c ","); [done|]. by destruct (split_comma s).
Qed.

(** Joining the fields with commas gives the input back. *)
Lemma split_comma_join s : join_comma (split_comma s) = s.
Proof.
  induction s as [|c s IH]; [done|]. cbn [split_comma].
  pose proof (split_comma_nonempty s) as Hne.
  destruct (Ascii.eqb c ",") eqn:Hc.
  - apply Ascii.eqb_eq in Hc as ->.
    destruct (split_comma s) as [|g rest]; [done|].
    change (join_comma ([] :: g :: rest))
      with (","%char :: join_comma (g :: rest)).
    by rewrite IH.
  - destruct (split_comma s) as [|f [|g rest]]; [done|..].
    + simpl in *. by rewrite IH.
    + change (join_comma ((c :: f) :: g :: rest))
        with (c :: join_comma (f :: g :: rest)).
      by rewrite IH.
Qed.

(** No field holds a comma. *)
Lemma split_comma_no_comma s :
  Forall (λ f, ("," : ascii) ∉ f) (split_comma s).
Proof.
  induction s as [|c s IH]; simpl.
  - constructor; [apply not_elem_of_nil|constructor].
  - destruct (Ascii.eqb c ",") eqn:Hc.
    + constructor; [apply not_elem_of_nil|done].
    + apply Ascii.eqb_neq in Hc.
      destruct (split_comma s) as [|f rest].
      * constructor; [|constructor]. set_solver.
      * apply Forall_cons in IH as [Hf Hrest].
        constructor; [|done]. set_solver.
Qed.

Lemma space_width_le s : (space_width s ≤ length s)%nat.
Proof.
  unfold space_width.
  destruct (space_rune (take 1 s)) eqn:H1;
    [|destruct (space_rune (take 2 s)) eqn:H2;
      [|destruct (space_rune (take 3 s)) eqn:H3; [|lia]]].
  - destruct s; [discriminate|simpl; lia].
  - destruct s as [|a [|b s]]; [discriminate| |simpl; lia].
    cbn [firstn] in H1, H2. congruence.
  - destruct s as [|a [|b [|c s]]]; [discriminate| | |simpl; lia].
    + cbn [firstn] in H1, H3. congruence.
    + cbn [firstn] in H2, H3. congruence.
Qed.

Lemma last_space_width_le r : (last_space_width r ≤ length r)%nat.
Proof.
  unfold last_space_width.
  destruct (space_rune (reverse (take 1 r))) eqn:H1;
    [|destruct (space_rune (reverse (take 2 r))) eqn:H2;
      [|destruct (space_rune (reverse (take 3 r))) eqn:H3; [|lia]]].
  - destruct r; [discriminate|simpl; lia].
  - destruct r as [|a [|b r]]; [discriminate| |simpl; lia].
    cbn [firstn] in H1, H2. congruence.
  - destruct r as [|a [|b [|c r]]]; [discriminate| | |simpl; lia].
    + cbn [firstn] in H1, H3. congruence.
    + cbn [firstn] in H2, H3. congruence.
Qed.

(** The fuel is enough: what [trim_go] returns has nothing left to trim. *)
Lemma trim_go_done (width : list ascii → nat) fuel s :
  (∀ s, (width s ≤ length s)%nat) →
  (length s ≤ fuel)%nat →
  width (trim_go width fuel s) = 0.
Proof.
  intros Hle. revert s. induction fuel as [|fuel IH]; intros s Hlen; simpl.
  - pose proof (Hle s). lia.
  - destruct (width s) as [|w] eqn:Hw; [done|].
    apply IH. rewrite length_drop. pose proof (Hle s). lia.
Qed.

Lemma trim_left_done s : space_width (trim_left s) = 0.
Proof. apply trim_go_done; [apply space_width_le|done]. Qed.

Lemma trim_right_done s :
  last_space_width (reverse (trim_right s)) = 0.
Proof.
  unfold trim_right. rewrite reverse_involutive.
  apply trim_go_done; [apply last_space_width_le|].
  by rewrite length_reverse.
Qed.

(** Trimming removes bytes at the two ends only. *)
Lemma trim_go_suffix (width : list ascii → nat) fuel s :
  trim_go width fuel s `suffix_of` s.
Proof.
  revert s. induction fuel as [|fuel IH]; intros s; simpl; [done|].
  destruct (width s) as [|w]; [done|].
  etrans; [apply IH|]. apply suffix_drop.
Qed.

End strings_proofs.

(** ** Restore handlers *)

Module api_proofs.
Import api.

Section Handlers.

Variable enforce : string → resource → action → string → option error.
Variable ObjectName : string → string → string.

Section Filter.

Variable Item : Type.
Variable FromUnstructured : Item → error + ClusterRestore.

Local Abbreviation verdict_of := (item_verdict enforce ObjectName Item FromUnstructured).
Local Abbreviation is_allowed := (allowed enforce ObjectName Item FromUnstructured).
Local Abbreviation is_denied := (denied enforce ObjectName Item FromUnstructured).
Local Abbreviation fails_with := (failed_with enforce ObjectName Item FromUnstructured).
Local Abbreviation loop := (filter_loop enforce ObjectName Item FromUnstructured).
Local Abbreviation rbac_filter := (rbacFilter enforce ObjectName Item FromUnstructured).

Lemma verdict_cases user obj :
  verdict_of user obj = Allowed ∨ verdict_of user obj = Denied
  ∨ ∃ err, fails_with user err obj.
Proof.
  unfold failed_with. destruct (verdict_of user obj); eauto.
Qed.

Lemma loop_step user obj rest acc :
  loop user (obj :: rest) acc =
    match verdict_of user obj with
    | Allowed => loop user rest (acc ++ [obj])
    | Denied => loop user rest acc
    | DecodeFailed err | CheckFailed err => inl err
    end.
Proof.
  unfold item_verdict. simpl.
  destruct (FromUnstructured obj) as [err|restore]; [done|].
  destruct (enforceDBClusterListRestoreRBAC _ _ _ _ _) as [err|]; [|done].
  by destruct (is_insufficient err).
Qed.

Lemma loop_no_failure user items acc :
  Forall (λ obj, verdict_of user obj = Allowed ∨ verdict_of user obj = Denied)
    items →
  loop user items acc = inr (acc ++ filter (λ obj, is_allowed user obj) items).
Proof.
  intros Hok. revert acc.
  induction Hok as [|obj rest [Hv|Hv] _ IH]; intros acc.
  - by rewrite app_nil_r.
  - rewrite loop_step, Hv, IH.
    rewrite filter_cons_True by (unfold allowed; rewrite Hv; exact I).
    by rewrite <- app_assoc.
  - rewrite loop_step, Hv, IH.
    rewrite filter_cons_False; [done|]. unfold allowed. rewrite Hv. exact id.
Qed.

Lemma loop_first_failure user pre obj post err acc :
  Forall (λ obj, verdict_of user obj = Allowed ∨ verdict_of user obj = Denied)
    pre →
  fails_with user err obj →
  loop user (pre ++ obj :: post) acc = inl err.
Proof.
  intros Hpre Hfail. revert acc.
  induction Hpre as [|x pre [Hv|Hv] _ IH]; intros acc; simpl app.
  - rewrite loop_step. by destruct Hfail as [-> | ->].
  - by rewrite loop_step, Hv, IH.
  - by rewrite loop_step, Hv, IH.
Qed.

Lemma first_failure_split user items :
  Exists (λ obj, ∃ err, fails_with user err obj) items →
  ∃ pre obj post err,
    items = pre ++ obj :: post
    ∧ Forall (λ obj, verdict_of user obj = Allowed
                     ∨ verdict_of user obj = Denied) pre
    ∧ fails_with user err obj.
Proof.
  induction items as [|x items IH]; intros Hex.
  - by apply Exists_nil in Hex.
  - destruct (verdict_cases user x) as [Hv|[Hv|[err Hv]]].
    + apply Exists_cons in Hex as [[err [H|H]]|Hex]; [congruence..|].
      destruct (IH Hex) as (pre & obj & post & err & -> & Hpre & Hf).
      exists (x :: pre), obj, post, err. split_and!; [done| |done].
      constructor; auto.
    + apply Exists_cons in Hex as [[err [H|H]]|Hex]; [congruence..|].
      destruct (IH Hex) as (pre & obj & post & err & -> & Hpre & Hf).
      exists (x :: pre), obj, post, err. split_and!; [done| |done].
      constructor; auto.
    + exists [], x, items, err. split_and!; [done|constructor|done].
Qed.

Lemma filter_allowed_length user (items : list Item) :
  Forall (λ obj, verdict_of user obj = Allowed ∨ verdict_of user obj = Denied)
    items →
  length (filter (λ obj, is_allowed user obj) items)
  + length (filter (λ obj, is_denied user obj) items) = length items.
Proof.
  induction 1 as [|obj rest [Hv|Hv] _ IH]; [done|..].
  - rewrite filter_cons_True by (unfold allowed; rewrite Hv; exact I).
    rewrite filter_cons_False by (unfold denied; rewrite Hv; exact id).
    simpl. lia.
  - rewrite filter_cons_False by (unfold allowed; rewrite Hv; exact id).
    rewrite filter_cons_True by (unfold denied; rewrite Hv; exact I).
    simpl. lia.
Qed.

(** C5: when every item decodes and every check ends in "allowed" or
    "denied", the filter returns no error and exactly the allowed items:
    of N items of which M are denied, N - M remain, in their input order. *)
Theorem C5_filter_drops_exactly_the_denied (user : string) (items : list Item) :
  Forall (λ obj, verdict_of user obj = Allowed ∨ verdict_of user obj = Denied)
    items →
  let out := filter (λ obj, is_allowed user obj) items in
  let N := length items in
  let M := length (filter (λ obj, is_denied user obj) items) in
  rbac_filter user items = (out, None)
  ∧ length out = N - M
  ∧ sublist out items
  ∧ (∀ obj, obj ∈ out ↔ obj ∈ items ∧ verdict_of user obj = Allowed)
  ∧ (∀ obj, obj ∈ items → verdict_of user obj = Denied → obj ∉ out).
Proof.
  intros Hok. cbv zeta. split_and!.
  - unfold rbacFilter. by rewrite (loop_no_failure _ _ _ Hok).
  - pose proof (filter_allowed_length user items Hok). lia.
  - apply sublist_filter.
  - intros obj. rewrite list_elem_of_filter. unfold allowed.
    destruct (verdict_of user obj); simpl; naive_solver.
  - intros obj _ Hv. rewrite list_elem_of_filter. unfold allowed.
    rewrite Hv. simpl. tauto.
Qed.

(** C6: a list with an item that does not decode, or with an item whose
    check fails with another error than a denial, makes the filter return
    an error and leave the list as it was (no filtered part is kept); the
    error is the one of the first item that fails, the items before it
    having been allowed or denied. *)
Theorem C6_filter_aborts_on_failure (user : string) (items : list Item) :
  (Exists (λ obj, ∃ err, FromUnstructured obj = inl err) items →
     ∃ err, rbac_filter user items = (items, Some err))
  ∧ (Exists (λ obj, ∃ restore err,
               FromUnstructured obj = inr restore
               ∧ enforceDBClusterListRestoreRBAC enforce ObjectName user
                   restore ActionRead = Some err
               ∧ is_insufficient err = false) items →
     ∃ err, rbac_filter user items = (items, Some err))
  ∧ (∀ pre obj post err,
       items = pre ++ obj :: post →
       Forall (λ obj, verdict_of user obj = Allowed
                      ∨ verdict_of user obj = Denied) pre →
       FromUnstructured obj = inl err →
       rbac_filter user items = (items, Some err))
  ∧ (∀ pre obj post restore err,
       items = pre ++ obj :: post →
       Forall (λ obj, verdict_of user obj = Allowed
                      ∨ verdict_of user obj = Denied) pre →
       FromUnstructured obj = inr restore →
       enforce user ResourceDatabaseClusterRestores ActionRead
         (ObjectName (GetNamespace restore) (DBClusterName restore))
         = Some err →
       is_insufficient err = false →
       rbac_filter user items = (items, Some err)).
Proof.
  assert (Habort : Exists (λ obj, ∃ err, fails_with user err obj) items →
                   ∃ err, rbac_filter user items = (items, Some err)).
  { intros Hex.
    destruct (first_failure_split user items Hex)
      as (pre & obj & post & err & -> & Hpre & Hf).
    exists err. unfold rbacFilter.
    by rewrite (loop_first_failure user pre obj post err [] Hpre Hf). }
  split_and!.
  - intros Hex. apply Habort. eapply Exists_impl; [exact Hex|].
    intros obj [err Hd]. exists err. left.
    unfold item_verdict. by rewrite Hd.
  - intros Hex. apply Habort. eapply Exists_impl; [exact Hex|].
    intros obj (restore & err & Hd & He & Hni). exists err. right.
    unfold item_verdict. by rewrite Hd, He, Hni.
  - intros pre obj post err -> Hpre Hd. unfold rbacFilter.
    rewrite (loop_first_failure user pre obj post err []); [done..|].
    left. unfold item_verdict. by rewrite Hd.
  - intros pre obj post restore err -> Hpre Hd He Hni. unfold rbacFilter.
    rewrite (loop_first_failure user pre obj post err []); [done..|].
    right. unfold item_verdict, enforceDBClusterListRestoreRBAC.
    by rewrite Hd, He, Hni.
Qed.

End Filter.

(** C2: authorizing the creation of a restore succeeds exactly when all
    three grants hold: read on the credentials of the target cluster, read
    on the source backup, read on the restores of the target cluster.  When
    one of them fails, the error of the first failing check is returned. *)
Theorem C2_restore_needs_all_three_grants
    (user namespace srcBackupName dbClusterName : string) :
  let credentials :=
    enforce user ResourceDatabaseClusterCredentials ActionRead
      (ObjectName namespace dbClusterName) in
  let backup :=
    enforce user ResourceDatabaseClusterBackups ActionRead
      (ObjectName namespace srcBackupName) in
  let restores :=
    enforce user ResourceDatabaseClusterRestores ActionRead
      (ObjectName namespace dbClusterName) in
  let authorized :=
    enforceDBRestoreRBAC enforce ObjectName user namespace srcBackupName
      dbClusterName in
  (authorized = None ↔ credentials = None ∧ backup = None ∧ restores = None)
  ∧ (∀ err, credentials = Some err → authorized = Some err)
  ∧ (∀ err, credentials = None → backup = Some err → authorized = Some err)
  ∧ (∀ err, credentials = None → backup = None → restores = Some err →
       authorized = Some err).
Proof.
  unfold enforceDBRestoreRBAC. cbv zeta.
  destruct (enforce user ResourceDatabaseClusterCredentials _ _) as [e1|];
    destruct (enforce user ResourceDatabaseClusterBackups _ _) as [e2|];
    destruct (enforce user ResourceDatabaseClusterRestores _ _) as [e3|];
    split_and!; naive_solver.
Qed.

Section Create.

Variable Error : error → string.

(** C3: when the request has passed authentication, decoding, validation
    and the fetch of the target cluster, a cluster whose status is
    "restoring" makes the creation fail although all three authorization
    checks succeeded; a failed authorization decides the response whatever
    the status is (the status is looked at only afterwards); and the
    conflict is answered as a JSON error response, which is never the
    returned authorization error. *)
Theorem C3_restore_in_progress_is_a_conflict
    (ctx : Request) (namespace user : string) (restore : RestoreBody)
    (spec : RestoreSpec) (dbCluster : DatabaseCluster) :
  GetUser ctx = inr user →
  getBodyFromContext ctx = inr restore →
  validateDatabaseClusterRestore ctx namespace restore = None →
  Spec restore = Some spec →
  GetDatabaseCluster ctx namespace (DbClusterName spec) = inr dbCluster →
  let authorized :=
    enforceDBRestoreRBAC enforce ObjectName user namespace
      (default "" (DbClusterBackupName spec)) (GetName dbCluster) in
  let resp := CreateDatabaseClusterRestore enforce ObjectName Error ctx namespace in
  let conflict := JSON StatusBadRequest restoreInProgressMessage in
  (authorized = None → Status dbCluster = AppStateRestoring → resp = conflict)
  ∧ (∀ err, authorized = Some err → resp = ReturnErr err)
  ∧ (resp = conflict ↔ authorized = None ∧ Status dbCluster = AppStateRestoring)
  ∧ (∀ err, resp = ReturnErr err ↔ authorized = Some err)
  ∧ (authorized = None → Status dbCluster ≠ AppStateRestoring →
       resp = Proxy namespace databaseClusterRestoreKind "").
Proof.
  intros Huser Hbody Hvalid Hspec Hget. cbv zeta.
  unfold CreateDatabaseClusterRestore.
  rewrite Huser, Hbody, Hvalid, Hspec, Hget.
  destruct (enforceDBRestoreRBAC _ _ _ _ _ _) as [e|].
  - split_and!; naive_solver.
  - case_bool_decide as Hst; split_and!; naive_solver.
Qed.

End Create.

End Handlers.

(** The three grants on a concrete request: "bob" may read in team-a, so a
    restore there is authorized; in team-b the first check denies it. *)
Example restore_rbac_examples :
  enforceDBRestoreRBAC fake.enforce fake.ObjectName "bob" "team-a" "bkp" "db1"
    = None
  ∧ enforceDBRestoreRBAC fake.enforce fake.ObjectName "bob" "team-b" "bkp" "db1"
    = Some errInsufficientPermissions.
Proof. split; reflexivity. Qed.

Lemma C3_witness :
  CreateDatabaseClusterRestore fake.enforce fake.ObjectName fake.Error
    (fake.request "admin" (Some "bkp") "restoring") "team-a"
  = JSON 400 restoreInProgressMessage.
Proof.
  refine (proj1 (C3_restore_in_progress_is_a_conflict
            fake.enforce fake.ObjectName fake.Error
            (fake.request "admin" (Some "bkp") "restoring") "team-a" "admin"
            {| Spec := Some {| DbClusterName := "db1";
                               DbClusterBackupName := Some "bkp" |} |}
            {| DbClusterName := "db1"; DbClusterBackupName := Some "bkp" |}
            {| GetName := "db1"; Status := "restoring" |}
            _ _ _ _ _) _ _); reflexivity.
Defined.

Lemma C5_witness :
  rbacFilter fake.enforce fake.ObjectName fake.Item fake.FromUnstructured "bob"
    [Some ("team-a", "db1"); Some ("team-b", "db2"); Some ("team-a", "db3")]
  = ([Some ("team-a", "db1"); Some ("team-a", "db3")], None).
Proof.
  refine (proj1 (C5_filter_drops_exactly_the_denied
            fake.enforce fake.ObjectName fake.Item fake.FromUnstructured "bob"
            [Some ("team-a", "db1"); Some ("team-b", "db2");
             Some ("team-a", "db3")] _)).
  repeat match goal with
         | |- Forall _ (_ :: _) =>
             constructor; [first [left; reflexivity | right; reflexivity]|]
         | |- Forall _ [] => constructor
         end.
Defined.

End api_proofs.

(** ** The pattern matcher *)

Module regexp_proofs.
Import regexp.

Lemma accept_rep_succ n a s k :
  accept (Rep (S n) a) s k
  = accept a s (λ s', accept (Rep n a) s' k) || k s.
Proof. reflexivity. Qed.

Lemma lang_rep_zero a s : lang (Rep 0 a) s → s = [].
Proof. inversion 1; done. Qed.

(** The matcher accepts exactly the splits of the input into a word of the
    language and a rest the continuation accepts. *)
Lemma accept_spec r :
  ∀ s k, accept r s k = true
         ↔ ∃ s1 s2, s = s1 ++ s2 ∧ lang r s1 ∧ k s2 = true.
Proof.
  induction r as [p|a IHa b IHb|a IHa|n a IHa].
  - intros [|c s] k; simpl.
    + split; [done|]. intros (s1 & s2 & Hs & Hl & _).
      inversion Hl; subst. done.
    + rewrite andb_true_iff. split.
      * intros [Hp Hk]. exists [c], s. split_and!; [done| |done].
        by constructor.
      * intros (s1 & s2 & Hs & Hl & Hk). inversion Hl; subst.
        simpl in Hs. by inversion Hs; subst.
  - intros s k. simpl. rewrite IHa. split.
    + intros (s1 & s2 & -> & Ha & Hb). apply IHb in Hb
        as (t1 & t2 & -> & Hb & Hk).
      exists (s1 ++ t1), t2. rewrite <- app_assoc.
      split_and!; [done| |done]. by constructor.
    + intros (s1 & s2 & -> & Hl & Hk). inversion Hl; subst.
      eexists _, _. rewrite <- app_assoc. split_and!; [done..|].
      apply IHb. eauto.
  - intros s k. simpl. rewrite orb_true_iff, IHa. split.
    + intros [(s1 & s2 & -> & Hl & Hk)|Hk].
      * exists s1, s2. split_and!; [done| |done]. by constructor.
      * exists [], s. split_and!; [done| |done]. constructor.
    + intros (s1 & s2 & -> & Hl & Hk). inversion Hl; subst; eauto 6.
  - induction n as [|n IHn]; intros s k.
    + simpl. split.
      * intros Hk. exists [], s. split_and!; [done| |done]. constructor.
      * intros (s1 & s2 & -> & Hl & Hk). by apply lang_rep_zero in Hl as ->.
    + rewrite accept_rep_succ, orb_true_iff, IHa. split.
      * intros [(s1 & s2 & -> & Hl & Hk)|Hk].
        -- apply IHn in Hk as (t1 & t2 & -> & Hr & Hk).
           exists (s1 ++ t1), t2. rewrite <- app_assoc.
           split_and!; [done| |done]. by constructor.
        -- exists [], s. split_and!; [done| |done]. constructor.
      * intros (s1 & s2 & -> & Hl & Hk). inversion Hl; subst.
        -- by right.
        -- left. eexists _, _. rewrite <- app_assoc. split_and!; [done..|].
           apply IHn. eauto.
Qed.

Lemma MatchString_spec r s :
  MatchString r s = true ↔ lang r (strings.bytes s).
Proof.
  unfold MatchString. rewrite accept_spec. split.
  - intros (s1 & s2 & Hs & Hl & Hk). apply bool_decide_eq_true in Hk as ->.
    by rewrite Hs, app_nil_r.
  - intros Hl. exists (strings.bytes s), []. rewrite app_nil_r.
    split_and!; [done..|]. by apply bool_decide_eq_true.
Qed.

(** Up to [n] characters of one class. *)
Lemma lang_rep_class n p s :
  lang (Rep n (Class p)) s ↔ (length s ≤ n)%nat ∧ Forall (λ c, p c = true) s.
Proof.
  revert s. induction n as [|n IH]; intros s.
  - split.
    + intros ->%lang_rep_zero. split; [done|constructor].
    + intros [Hlen _]. destruct s; [constructor|simpl in Hlen; lia].
  - split.
    + inversion 1 as [| | | |?|? ? s1 t Hc Hr]; subst.
      * split; [simpl; lia|constructor].
      * inversion Hc; subst. apply IH in Hr as [Hlen Hall].
        split; [simpl; lia|]. by constructor.
    + intros [Hlen Hall]. destruct s as [|c s]; [constructor|].
      apply Forall_cons in Hall as [Hc Hall].
      change (c :: s) with ([c] ++ s). constructor; [by constructor|].
      apply IH. split; [simpl in Hlen; lia|done].
Qed.

End regexp_proofs.

(** ** The namespace validator *)

Module validator_proofs.
Import namespaces.

Lemma lang_seq_inv a b s :
  regexp.lang (regexp.Seq a b) s →
  ∃ s1 s2, s = s1 ++ s2 ∧ regexp.lang a s1 ∧ regexp.lang b s2.
Proof. inversion 1; subst; eauto. Qed.

Lemma lang_class_inv p s :
  regexp.lang (regexp.Class p) s → ∃ c, s = [c] ∧ p c = true.
Proof. inversion 1; subst; eauto. Qed.

Lemma lang_opt_inv a s :
  regexp.lang (regexp.Opt a) s → s = [] ∨ regexp.lang a s.
Proof. inversion 1; subst; eauto. Qed.

Lemma middle_class c :
  dash c || lower c || digit c = spec.alnum_or_dash c.
Proof.
  unfold spec.alnum_or_dash.
  destruct (dash c), (lower c), (digit c); reflexivity.
Qed.

(** The words of the pattern, read off its shape. *)
Lemma lang_rfc1035Regex bs :
  regexp.lang rfc1035Regex bs
  ↔ ∃ c rest,
      bs = c :: rest ∧ lower c = true
      ∧ (rest = []
         ∨ ∃ mids l,
             rest = mids ++ [l] ∧ (length mids ≤ 61)%nat
             ∧ Forall (λ c, spec.alnum_or_dash c = true) mids
             ∧ spec.alnum l = true).
Proof.
  unfold rfc1035Regex. split.
  - intros (s1 & s2 & -> & (c & -> & Hc)%lang_class_inv & Hopt)%lang_seq_inv.
    exists c, s2. split_and!; [done..|].
    apply lang_opt_inv in Hopt as [->|Hseq]; [by left|right].
    apply lang_seq_inv in Hseq
      as (mids & t & -> & Hrep & (l & -> & Hl)%lang_class_inv).
    apply regexp_proofs.lang_rep_class in Hrep as [Hlen Hall].
    exists mids, l. split_and!; [done..| |done].
    eapply Forall_impl; [exact Hall|].
    intros x Hx. simpl in Hx. by rewrite <- middle_class.
  - intros (c & rest & -> & Hc & Hrest).
    change (c :: rest) with ([c] ++ rest).
    constructor; [by constructor|].
    destruct Hrest as [->|(mids & l & -> & Hlen & Hall & Hl)]; [constructor|].
    apply regexp.lang_opt_some. constructor; [|by constructor].
    apply regexp_proofs.lang_rep_class. split; [done|].
    eapply Forall_impl; [exact Hall|].
    intros x Hx. simpl. by rewrite middle_class.
Qed.

Lemma alnum_is_alnum_or_dash c :
  spec.alnum c = true → spec.alnum_or_dash c = true.
Proof.
  unfold spec.alnum, spec.alnum_or_dash. intros ->. reflexivity.
Qed.

Lemma lower_is_alnum c : lower c = true → spec.alnum c = true.
Proof. unfold spec.alnum. intros ->. reflexivity. Qed.

(** The pattern and the DNS-label rule describe the same names. *)
Lemma MatchString_dns_label s :
  regexp.MatchString rfc1035Regex s = true ↔ spec.dns_label s.
Proof.
  rewrite regexp_proofs.MatchString_spec, lang_rfc1035Regex.
  unfold spec.dns_label. generalize (strings.bytes s) as bs. intros bs.
  cbv zeta. split.
  - intros (c & rest & -> & Hc & [->|(mids & l & -> & Hlen & Hall & Hl)]).
    + split_and!.
      * simpl. lia.
      * simpl. lia.
      * constructor; [|constructor].
        by apply alnum_is_alnum_or_dash, lower_is_alnum.
      * by exists c.
      * exists c. split; [done|]. by apply lower_is_alnum.
    + split_and!.
      * simpl. lia.
      * simpl. rewrite length_app. simpl. lia.
      * constructor; [by apply alnum_is_alnum_or_dash, lower_is_alnum|].
        apply Forall_app. split; [done|].
        constructor; [by apply alnum_is_alnum_or_dash|constructor].
      * by exists c.
      * exists l. split; [|done].
        change (c :: mids ++ [l]) with ((c :: mids) ++ [l]).
        apply last_snoc.
  - intros ([Hlo Hhi] & Hall & (c & Hhead & Hc) & (l & Hlast & Hl)).
    destruct bs as [|c' rest]; [done|]. simpl in Hhead.
    injection Hhead as ->. exists c, rest. split_and!; [done..|].
    destruct rest as [|x rest' _] using rev_ind; [by left|right].
    change (c :: rest' ++ [x]) with ((c :: rest') ++ [x]) in Hlast, Hall, Hhi.
    rewrite last_snoc in Hlast. injection Hlast as ->.
    exists rest', l. split_and!; [done| | |done].
    + rewrite length_app in Hhi. simpl in Hhi. lia.
    + apply Forall_app in Hall as [Hall _].
      by apply Forall_cons in Hall as [_ Hall].
Qed.

Lemma validateRFC1035_dns_label s :
  validateRFC1035 s = None ↔ spec.dns_label s.
Proof.
  rewrite <- MatchString_dns_label. unfold validateRFC1035.
  destruct (regexp.MatchString rfc1035Regex s); simpl; split; done.
Qed.

Lemma validateRFC1035_not_compliant s :
  ¬ spec.dns_label s →
  validateRFC1035 s = Some (ErrNameNotRFC1035Compatible s).
Proof.
  rewrite <- MatchString_dns_label. unfold validateRFC1035.
  destruct (regexp.MatchString rfc1035Regex s); simpl; [done|done].
Qed.

Lemma dedup_elem_of l x : x ∈ spec.dedup l ↔ x ∈ l.
Proof.
  induction l as [|y l IH]; simpl; [done|].
  rewrite !elem_of_cons, list_elem_of_filter, IH.
  destruct (decide (x = y)); naive_solver.
Qed.

Lemma dedup_NoDup l : NoDup (spec.dedup l).
Proof.
  induction l as [|y l IH]; simpl; constructor.
  - rewrite list_elem_of_filter. naive_solver.
  - by apply NoDup_filter.
Qed.

Section Validate.

Variable OLMNamespace : string.

Local Abbreviation reserved := (namespaces.reserved OLMNamespace).
Local Abbreviation passes := (namespaces.passes OLMNamespace).
Local Abbreviation rejection := (namespaces.rejection OLMNamespace).
Local Abbreviation validate_loop := (namespaces.validate_loop OLMNamespace).
Local Abbreviation ValidateNamespaces :=
  (namespaces.ValidateNamespaces OLMNamespace).

(** The tokens among the fields of the split. *)
Local Abbreviation toks fields :=
  (filter (λ t : string, t ≠ "") (strings.TrimSpace <$> fields)).

Lemma reserved_spec t :
  reserved t = true
  ↔ t = common.SystemNamespace ∨ t = common.MonitoringNamespace
    ∨ t = OLMNamespace.
Proof.
  unfold namespaces.reserved.
  rewrite !orb_true_iff, !bool_decide_eq_true. tauto.
Qed.

Lemma passes_spec t :
  passes t = true ↔ reserved t = false ∧ spec.dns_label t.
Proof.
  unfold namespaces.passes.
  rewrite andb_true_iff, negb_true_iff, MatchString_dns_label. done.
Qed.

Lemma rejection_not_compliant t :
  reserved t = false → rejection t = ErrNameNotRFC1035Compatible t.
Proof. unfold namespaces.rejection. by intros ->. Qed.

Lemma rejection_reserved t :
  reserved t = true → rejection t = ErrNSReserved t.
Proof. unfold namespaces.rejection. by intros ->. Qed.

Lemma validate_loop_step f rest m :
  validate_loop (f :: rest) m =
    let ns := strings.TrimSpace f in
    if bool_decide (ns = "") then validate_loop rest m
    else if passes ns then validate_loop rest ({[ ns ]} ∪ m)
    else inl (rejection ns).
Proof.
  simpl. case_bool_decide; [done|].
  unfold namespaces.passes, namespaces.rejection, validateRFC1035.
  destruct (reserved _); [done|]. simpl.
  by destruct (regexp.MatchString _ _).
Qed.

Lemma toks_cons f rest :
  toks (f :: rest) =
    if bool_decide (strings.TrimSpace f = "") then toks rest
    else strings.TrimSpace f :: toks rest.
Proof.
  rewrite fmap_cons. case_bool_decide.
  - by rewrite filter_cons_False by (intros Hne; by apply Hne).
  - by rewrite filter_cons_True.
Qed.

Lemma validate_loop_pass fields m :
  Forall (λ t, passes t = true) (toks fields) →
  validate_loop fields m = inr (list_to_set (toks fields) ∪ m).
Proof.
  revert m. induction fields as [|f rest IH]; intros m.
  - intros _. simpl. f_equal. set_solver.
  - rewrite toks_cons, validate_loop_step. cbv zeta.
    case_bool_decide; [by apply IH|].
    intros [Hp Hrest]%Forall_cons. rewrite Hp, IH by done.
    f_equal. set_solver.
Qed.

Lemma validate_loop_reject fields m pre t post :
  toks fields = pre ++ t :: post →
  Forall (λ t, passes t = true) pre →
  passes t = false →
  validate_loop fields m = inl (rejection t).
Proof.
  revert m pre. induction fields as [|f rest IH]; intros m pre.
  - intros Hnil. by destruct pre.
  - rewrite toks_cons, validate_loop_step. cbv zeta.
    case_bool_decide; [by apply IH|].
    destruct pre as [|p pre]; simpl.
    + intros [= -> _] _ Ht. by rewrite Ht.
    + intros [= -> Hrest] [Hp Hpre]%Forall_cons Ht. rewrite Hp. eauto.
Qed.

Lemma first_rejected (l : list string) :
  Forall (λ t, passes t = true) l
  ∨ ∃ pre t post,
      l = pre ++ t :: post ∧ Forall (λ t, passes t = true) pre
      ∧ passes t = false.
Proof.
  induction l as [|x l [IH|(pre & t & post & -> & Hpre & Ht)]].
  - left. constructor.
  - destruct (passes x) eqn:Hx.
    + left. by constructor.
    + right. exists [], x, l. split_and!; [done|constructor|done].
  - destruct (passes x) eqn:Hx.
    + right. exists (x :: pre), t, post. split_and!; [done| |done].
      by constructor.
    + right. exists [], x, (pre ++ t :: post).
      split_and!; [done|constructor|done].
Qed.

(** What the validator returns, by the tokens of its input. *)
Lemma ValidateNamespaces_cases o str :
  (spec.tokens str = [] ∧ ValidateNamespaces o str = inl ErrNSEmpty)
  ∨ (spec.tokens str ≠ []
     ∧ Forall (λ t, passes t = true) (spec.tokens str)
     ∧ ValidateNamespaces o str
       = inr (range_keys o (list_to_set (spec.tokens str))))
  ∨ (∃ pre t post,
       spec.tokens str = pre ++ t :: post
       ∧ Forall (λ t, passes t = true) pre
       ∧ passes t = false
       ∧ ValidateNamespaces o str = inl (rejection t)).
Proof.
  unfold namespaces.ValidateNamespaces, spec.tokens.
  destruct (first_rejected (toks (strings.Split str)))
    as [Hall|(pre & t & post & Heq & Hpre & Ht)].
  - rewrite (validate_loop_pass _ ∅ Hall), (right_id_L ∅ (∪)).
    pose proof (range_keys_perm o (list_to_set (toks (strings.Split str))))
      as Hperm.
    destruct (toks (strings.Split str)) as [|t ts] eqn:Htoks.
    + left. split; [done|].
      change (list_to_set []) with (∅ : gset string) in *.
      rewrite elements_empty in Hperm.
      apply Permutation_nil_r in Hperm. by rewrite Hperm.
    + right; left. split_and!; [done..|].
      destruct (range_keys o _) as [|k ks] eqn:Hkeys; [|done].
      apply Permutation_nil_l in Hperm. symmetry in Hperm.
      apply elements_empty_inv in Hperm. set_solver.
  - right; right. exists pre, t, post. split_and!; [done..|].
    by rewrite (validate_loop_reject _ ∅ pre t post Heq Hpre Ht).
Qed.

Lemma range_keys_NoDup o (m : gset string) : NoDup (range_keys o m).
Proof. rewrite (range_keys_perm o m). apply NoDup_elements. Qed.

Lemma range_keys_elem_of o (l : list string) x :
  x ∈ range_keys o (list_to_set l) ↔ x ∈ l.
Proof.
  rewrite (range_keys_perm o), elem_of_elements, elem_of_list_to_set. done.
Qed.

Lemma ValidateNamespaces_reject o str pre t post :
  spec.tokens str = pre ++ t :: post →
  Forall (λ t, passes t = true) pre →
  passes t = false →
  ValidateNamespaces o str = inl (rejection t).
Proof.
  intros Heq Hpre Ht. unfold namespaces.ValidateNamespaces.
  by rewrite (validate_loop_reject _ ∅ pre t post Heq Hpre Ht).
Qed.

Lemma ValidateNamespaces_accept o str :
  spec.tokens str ≠ [] →
  Forall (λ t, passes t = true) (spec.tokens str) →
  ValidateNamespaces o str = inr (range_keys o (list_to_set (spec.tokens str))).
Proof.
  intros Hne Hall.
  destruct (ValidateNamespaces_cases o str)
    as [[Hnil _]|[(_ & _ & Hv)|(pre & t & post & Heq & _ & Ht & _)]];
    [done|done|].
  rewrite Heq in Hall. apply Forall_app in Hall as [_ Hall].
  apply Forall_cons in Hall as [Hp _]. congruence.
Qed.

Lemma ValidateNamespaces_inr o str l :
  ValidateNamespaces o str = inr l →
  Forall (λ t, passes t = true) (spec.tokens str)
  ∧ l = range_keys o (list_to_set (spec.tokens str)).
Proof.
  intros Hv.
  destruct (ValidateNamespaces_cases o str)
    as [[_ He]|[(_ & Hall & Hr)|(pre & t & post & _ & _ & _ & Hr)]];
    [congruence| |congruence].
  split; [done|congruence].
Qed.

Lemma rejection_not_empty t : rejection t ≠ ErrNSEmpty.
Proof. unfold namespaces.rejection. by destruct (reserved t). Qed.

(** C7: the validator splits on commas, trims every field and drops the
    blank ones ([spec.tokens]); a list it returns holds exactly these
    tokens, each once; it returns [ErrNSEmpty] exactly when there is no
    token, as for the empty string; and "a,b,a, ,c" gives a list with the
    elements a, b and c (the names being none of the reserved ones). *)
Theorem C7_validate_builds_the_set_of_tokens (o : MapOrder) (str : string) :
  (∀ l, ValidateNamespaces o str = inr l →
        NoDup l ∧ (∀ ns, ns ∈ l ↔ ns ∈ spec.tokens str)
        ∧ l ≡ₚ spec.caller_order str)
  ∧ (spec.tokens str = [] ↔ ValidateNamespaces o str = inl ErrNSEmpty)
  ∧ (spec.tokens str ≠ [] →
     Forall (λ t, passes t = true) (spec.tokens str) →
     ∃ l, ValidateNamespaces o str = inr l)
  ∧ ValidateNamespaces o "" = inl ErrNSEmpty
  ∧ ValidateNamespaces o "  ,	, " = inl ErrNSEmpty
  ∧ (OLMNamespace ∉ ["a"; "b"; "c"] →
     ∃ l, ValidateNamespaces o "a,b,a, ,c" = inr l ∧ l ≡ₚ ["a"; "b"; "c"]).
Proof.
  split_and!.
  - intros l [Hall ->]%ValidateNamespaces_inr.
    assert (∀ ns, ns ∈ range_keys o (list_to_set (spec.tokens str))
                  ↔ ns ∈ spec.tokens str) as Hin
      by (intros ns; apply range_keys_elem_of).
    split_and!; [apply range_keys_NoDup|done|].
    apply NoDup_Permutation; [apply range_keys_NoDup|apply dedup_NoDup|].
    intros ns. unfold spec.caller_order. by rewrite Hin, dedup_elem_of.
  - split.
    + intros Hnil.
      destruct (ValidateNamespaces_cases o str)
        as [[_ He]|[(Hne & _)|(pre & t & post & Heq & _)]]; [done|done|].
      rewrite Hnil in Heq. by destruct pre.
    + intros He.
      destruct (ValidateNamespaces_cases o str)
        as [[Hnil _]|[(_ & _ & Hr)|(pre & t & post & _ & _ & _ & Hr)]];
        [done|congruence|].
      rewrite He in Hr. injection Hr as Hr. symmetry in Hr.
      by apply rejection_not_empty in Hr.
  - intros Hne Hall. eexists. by apply ValidateNamespaces_accept.
  - destruct (ValidateNamespaces_cases o "")
      as [[_ He]|[(Hne & _)|(pre & t & post & Heq & _)]]; [done| |].
    + by vm_compute in Hne.
    + vm_compute in Heq. by destruct pre.
  - destruct (ValidateNamespaces_cases o "  ,	, ")
      as [[_ He]|[(Hne & _)|(pre & t & post & Heq & _)]]; [done| |].
    + by vm_compute in Hne.
    + vm_compute in Heq. by destruct pre.
  - intros Holm.
    assert (spec.tokens "a,b,a, ,c" = ["a"; "b"; "a"; "c"]) as Htok
      by (vm_compute; reflexivity).
    assert (Forall (λ t, passes t = true) (spec.tokens "a,b,a, ,c")) as Hall.
    { rewrite Htok. apply Forall_forall. intros t Ht.
      apply passes_spec. split.
      - destruct (reserved t) eqn:Hr; [|done].
        apply reserved_spec in Hr as [-> | [-> | ->] ]; set_solver.
      - apply MatchString_dns_label.
        repeat (apply elem_of_cons in Ht as [->|Ht]; [by vm_compute|]).
        by apply elem_of_nil in Ht. }
    eexists. split; [apply ValidateNamespaces_accept; [by rewrite Htok|done]|].
    apply NoDup_Permutation; [apply range_keys_NoDup| |].
    + repeat (constructor; [set_solver|]). constructor.
    + intros ns. rewrite range_keys_elem_of, Htok. set_solver.
Qed.

(** C8, as amended: the reserved names are the system namespace, the
    monitoring namespace and the namespace of the operator lifecycle
    manager.  An input with a reserved token yields no list but an error:
    the error of the first token that does not pass, which is the Reserved
    error naming the reserved token when every token before it passes. *)
Theorem C8_reserved_token_is_rejected (o : MapOrder) (str t : string) :
  t ∈ spec.tokens str →
  reserved t = true →
  (t = "everest-system" ∨ t = "everest-monitoring" ∨ t = OLMNamespace)
  ∧ (∀ l, ValidateNamespaces o str ≠ inr l)
  ∧ (∃ pre t0 post,
       spec.tokens str = pre ++ t0 :: post
       ∧ Forall (λ t, passes t = true) pre
       ∧ passes t0 = false
       ∧ ValidateNamespaces o str = inl (rejection t0))
  ∧ (∀ pre post,
       spec.tokens str = pre ++ t :: post →
       Forall (λ t, passes t = true) pre →
       ValidateNamespaces o str = inl (ErrNSReserved t)).
Proof.
  intros Hin Hres.
  assert (passes t = false) as Ht
    by (unfold namespaces.passes; by rewrite Hres).
  assert (∃ pre t0 post,
            spec.tokens str = pre ++ t0 :: post
            ∧ Forall (λ t, passes t = true) pre
            ∧ passes t0 = false
            ∧ ValidateNamespaces o str = inl (rejection t0)) as Hfirst.
  { destruct (ValidateNamespaces_cases o str)
      as [[Hnil _]|[(_ & Hall & _)|Hrej]]; [|exfalso|done].
    - rewrite Hnil in Hin. by apply elem_of_nil in Hin.
    - rewrite Forall_forall in Hall. specialize (Hall t Hin). congruence. }
  split_and!.
  - by apply reserved_spec.
  - intros l Hl. destruct Hfirst as (? & ? & ? & _ & _ & _ & Hr). congruence.
  - done.
  - intros pre post Heq Hpre.
    rewrite (ValidateNamespaces_reject o str pre t post Heq Hpre Ht).
    by rewrite rejection_reserved.
Qed.

(** C9: the check of a name passes exactly for the DNS labels (lowercase
    alphanumeric characters and '-', a letter first, an alphanumeric
    character last, 1 to 63 characters) and gives the NotCompliant error
    naming the value otherwise; so a token that is not reserved is accepted
    into the list when it is a DNS label, and rejected with that error when
    it is not and the loop reaches it. *)
Theorem C9_token_accepted_iff_dns_label (o : MapOrder) :
  (∀ s, validateRFC1035 s = None ↔ spec.dns_label s)
  ∧ (∀ s, ¬ spec.dns_label s →
          validateRFC1035 s = Some (ErrNameNotRFC1035Compatible s))
  ∧ (∀ t, spec.tokens t = [t] → reserved t = false →
          (spec.dns_label t ↔ ValidateNamespaces o t = inr [t])
          ∧ (¬ spec.dns_label t
             ↔ ValidateNamespaces o t = inl (ErrNameNotRFC1035Compatible t)))
  ∧ (∀ str pre t post,
       spec.tokens str = pre ++ t :: post →
       Forall (λ t, passes t = true) pre →
       reserved t = false →
       ¬ spec.dns_label t →
       ValidateNamespaces o str = inl (ErrNameNotRFC1035Compatible t))
  ∧ (∀ str l t,
       ValidateNamespaces o str = inr l →
       t ∈ spec.tokens str →
       reserved t = false ∧ spec.dns_label t ∧ t ∈ l).
Proof.
  assert (∀ str pre t post,
            spec.tokens str = pre ++ t :: post →
            Forall (λ t, passes t = true) pre →
            reserved t = false →
            ¬ spec.dns_label t →
            ValidateNamespaces o str = inl (ErrNameNotRFC1035Compatible t))
    as Hreject.
  { intros str pre t post Heq Hpre Hres Hdns.
    assert (passes t = false) as Ht.
    { destruct (passes t) eqn:Hp; [|done].
      apply passes_spec in Hp as [_ Hp]. done. }
    rewrite (ValidateNamespaces_reject o str pre t post Heq Hpre Ht).
    by rewrite rejection_not_compliant. }
  assert (∀ t, spec.tokens t = [t] → reserved t = false → spec.dns_label t →
               ValidateNamespaces o t = inr [t]) as Haccept.
  { intros t Htok Hres Hdns.
    rewrite ValidateNamespaces_accept.
    - f_equal. apply Permutation_singleton_r.
      rewrite (range_keys_perm o), Htok. simpl.
      by rewrite (right_id_L ∅ (∪)), elements_singleton.
    - by rewrite Htok.
    - rewrite Htok. constructor; [|constructor]. by apply passes_spec. }
  split_and!.
  - apply validateRFC1035_dns_label.
  - apply validateRFC1035_not_compliant.
  - intros t Htok Hres.
    destruct (regexp.MatchString rfc1035Regex t) eqn:Hm.
    + apply MatchString_dns_label in Hm.
      rewrite (Haccept t Htok Hres Hm). split; split; done.
    + assert (¬ spec.dns_label t) as Hn
        by (rewrite <- MatchString_dns_label; congruence).
      rewrite (Hreject t [] t [] Htok (Forall_nil_2 _) Hres Hn).
      split; split; done.
  - exact Hreject.
  - intros str l t [Hall ->]%ValidateNamespaces_inr Hin.
    rewrite Forall_forall in Hall. specialize (Hall t Hin).
    apply passes_spec in Hall as [Hres Hdns].
    split_and!; [done..|]. by apply range_keys_elem_of.
Qed.

End Validate.

(** The examples of the specification, with the namespace of the operator
    lifecycle manager set to "everest-olm". *)
Example validate_examples :
  ValidateNamespaces fake.OLMNamespace elements_order ""
    = inl ErrNSEmpty
  ∧ ValidateNamespaces fake.OLMNamespace elements_order "everest-system"
    = inl (ErrNSReserved "everest-system")
  ∧ ValidateNamespaces fake.OLMNamespace elements_order "-bad"
    = inl (ErrNameNotRFC1035Compatible "-bad")
  ∧ ValidateNamespaces fake.OLMNamespace elements_order "good-name1"
    = inr ["good-name1"]
  ∧ ValidateNamespaces fake.OLMNamespace elements_order "db1,db1,everest-system"
    = inl (ErrNSReserved "everest-system").
Proof. split_and!; by vm_compute. Qed.

(** White space is what [unicode.IsSpace] says, also outside ASCII. *)
Example TrimSpace_examples :
  strings.TrimSpace "  a b	 " = "a b"
  ∧ strings.TrimSpace (String "194" (String "160" "db1")) = "db1"
  ∧ strings.Split "a,,b," = ["a"; ""; "b"; ""]
  ∧ strings.Split "" = [""].
Proof. split_and!; by vm_compute. Qed.

(** The claim as first stated fails: a token that is not a DNS label and
    comes before the reserved one decides the error. *)
Lemma C8_counterexample :
  "everest-system" ∈ spec.tokens "-bad,everest-system"
  ∧ reserved fake.OLMNamespace "everest-system" = true
  ∧ ValidateNamespaces fake.OLMNamespace elements_order "-bad,everest-system"
    = inl (ErrNameNotRFC1035Compatible "-bad")
  ∧ ErrNameNotRFC1035Compatible "-bad" ≠ ErrNSReserved "everest-system".
Proof.
  split_and!.
  - assert (spec.tokens "-bad,everest-system" = ["-bad"; "everest-system"])
      as -> by (by vm_compute).
    set_solver.
  - by vm_compute.
  - by vm_compute.
  - by vm_compute.
Qed.

Lemma C8_witness :
  ValidateNamespaces fake.OLMNamespace elements_order "db1,db1,everest-system"
  = inl (ErrNSReserved "everest-system").
Proof.
  refine (proj2 (proj2 (proj2
            (C8_reserved_token_is_rejected fake.OLMNamespace elements_order
               "db1,db1,everest-system" "everest-system" _ _)))
            ["db1"; "db1"] [] _ _).
  - assert (spec.tokens "db1,db1,everest-system"
            = ["db1"; "db1"; "everest-system"]) as -> by (by vm_compute).
    set_solver.
  - by vm_compute.
  - by vm_compute.
  - repeat (constructor; [by vm_compute|]). constructor.
Defined.

End validator_proofs.

(** ** The provisioner *)

Module provisioner_proofs.
Import namespaces.

Section Provision.

Context {W V : Type} `{!World W V}.

Local Abbreviation state := (@namespaces.state W V).

Lemma namespaceExists_run namespace (w : W) (tr : list (event V)) :
  namespaceExists namespace (w, tr) =
    (Normal
       match GetNamespace w namespace with
       | inl err =>
           if IsNotFound err then (false, false, None)
           else (false, false,
                 Some (wrapError "cannot check if namesapce exists: " err))
       | inr ns => (true, isManagedByEverest ns, None)
       end,
     (w, tr ++ [EvGetNamespace namespace])).
Proof.
  unfold namespaceExists, bind, call_GetNamespace.
  destruct (GetNamespace w namespace) as [err|ns]; [|done].
  by destruct (IsNotFound err).
Qed.

Lemma namespaceExists_resolved namespace (w : W) (tr : list (event V)) s :
  spec.resolve (GetNamespace w namespace) = Some s →
  namespaceExists namespace (w, tr) =
    (Normal (spec.present s,
             match s with spec.present_managed => true | _ => false end,
             None),
     (w, tr ++ [EvGetNamespace namespace])).
Proof.
  intros Hs. rewrite namespaceExists_run. unfold spec.resolve in Hs.
  destruct (GetNamespace w namespace) as [err|ns].
  - destruct (IsNotFound err); [|done]. by injection Hs as <-.
  - destruct (isManagedByEverest ns); by injection Hs as <-.
Qed.

(** Once the values merge, the installer is initialised with the release
    named after the namespace, and asked to create the namespace exactly
    when it does not exist. *)
Lemma installRelease_calls_installer cfg version namespace nsExists
    (w : W) (tr : list (event V)) values :
  MergeVals (getValues cfg) = inr values →
  ∃ r w' opts rest,
    installRelease cfg version namespace nsExists (w, tr) =
      (r, (w', tr ++ EvInit (KubeconfigPath cfg)
                       {| ReleaseName := namespace;
                          ReleaseNamespace := namespace;
                          Values := values;
                          CreateReleaseNamespace := negb nsExists |} opts
                       :: rest)).
Proof.
  intros Hv. unfold installRelease, bind, Must, call_Init, call_Install.
  rewrite Hv. simpl.
  destruct (Installer_Init _ _ _ _) as [w1 [err|]]; simpl.
  - by eexists _, _, _, [].
  - destruct (Installer_Install _ _) as [w2 r2].
    eexists _, _, _, [_]. by rewrite <- app_assoc.
Qed.







Lemma newStep_set_NamespaceList l cfg ver :
  newStepInstallNamespace (W:=W) (V:=V) (set_NamespaceList l cfg) ver
  = newStepInstallNamespace cfg ver.
Proof. reflexivity. Qed.




(** C1: the decision of [provisionDBNamespace] follows the table of the
    specification for every mode and every resolver state.  On a conflict
    it returns the error of the conflict, leaves the world as it is and
    calls the installer not at all.  Otherwise it goes on to the release
    installer, asking it to create the namespace exactly when the namespace
    is absent. *)
Theorem C1_provisioning_decision_table cfg version namespace
    (w : W) (tr : list (event V)) (s : spec.resolver_state) :
  spec.resolve (GetNamespace w namespace) = Some s →
  let resolved := (w, tr ++ [EvGetNamespace namespace]) in
  let run := provisionDBNamespace cfg version namespace (w, tr) in
  match spec.decision_table (spec.mode_of cfg) s with
  | spec.Conflict why =>
      run = (Normal (Some (spec.conflict_error why namespace)), resolved)
      ∧ installer_calls (run.2.2) = installer_calls tr
  | spec.Install | spec.UpdateRelease =>
      run = installRelease cfg version namespace (spec.present s) resolved
      ∧ (∀ values, MergeVals (getValues cfg) = inr values →
           ∃ r w' opts rest,
             run = (r, (w', tr ++ EvGetNamespace namespace
                              :: EvInit (KubeconfigPath cfg)
                                   {| ReleaseName := namespace;
                                      ReleaseNamespace := namespace;
                                      Values := values;
                                      CreateReleaseNamespace :=
                                        negb (spec.present s) |} opts
                              :: rest)))
  end.
Proof.
  intros Hs. cbv zeta.
  assert (provisionDBNamespace cfg version namespace (w, tr) =
          match spec.decision_table (spec.mode_of cfg) s with
          | spec.Conflict why =>
              (Normal (Some (spec.conflict_error why namespace)),
               (w, tr ++ [EvGetNamespace namespace]))
          | _ => installRelease cfg version namespace (spec.present s)
                   (w, tr ++ [EvGetNamespace namespace])
          end) as Hrun.
  { unfold provisionDBNamespace, bind at 1.
    rewrite (namespaceExists_resolved _ _ _ _ Hs). unfold spec.mode_of.
    destruct (Update cfg), (TakeOwnership cfg), s; reflexivity. }
  rewrite Hrun.
  destruct (spec.decision_table (spec.mode_of cfg) s) as [| |why].
  - split; [done|]. intros values Hv.
    destruct (installRelease_calls_installer cfg version namespace
                (spec.present s) w (tr ++ [EvGetNamespace namespace])
                values Hv) as (r & w' & opts & rest & ->).
    exists r, w', opts, rest. by rewrite <- app_assoc.
  - split; [done|]. intros values Hv.
    destruct (installRelease_calls_installer cfg version namespace
                (spec.present s) w (tr ++ [EvGetNamespace namespace])
                values Hv) as (r & w' & opts & rest & ->).
    exists r, w', opts, rest. by rewrite <- app_assoc.
  - split; [done|]. simpl. unfold installer_calls.
    rewrite filter_app. simpl. rewrite filter_cons_False by exact id.
    by rewrite filter_nil, app_nil_r.
Qed.

(** C10: in update mode the step does not read [TakeOwnership]: two
    configurations that differ in this flag only give the same result, the
    same world and the same calls. *)
Theorem C10_update_ignores_take_ownership cfg1 cfg2 version namespace
    (st : state) :
  Update cfg1 = true →
  cfg2 = set_TakeOwnership (TakeOwnership cfg2) cfg1 →
  provisionDBNamespace cfg1 version namespace st
  = provisionDBNamespace cfg2 version namespace st.
Proof.
  intros Hupd ->. unfold provisionDBNamespace, bind. simpl.
  destruct (namespaceExists namespace st) as [[[[nsExists owned] err]|e] st1];
    [|done].
  rewrite Hupd. destruct err; reflexivity.
Qed.

Section Pipeline.

Variable OLMNamespace : string.


End Pipeline.

End Provision.

(** The update of a namespace that exists without the label of the
    platform: the conflict is returned and the installer is not called. *)
Lemma C1_witness :
  provisionDBNamespace (fake.cfg true false ["db1"]) "1.3.0" "db1"
    (fake.cluster "db1" fake.unmanaged, [])
  = (Normal (Some (errNotManaged "db1")),
     (fake.cluster "db1" fake.unmanaged, [EvGetNamespace "db1"])).
Proof.
  refine (proj1 (C1_provisioning_decision_table
                   (fake.cfg true false ["db1"]) "1.3.0" "db1"
                   (fake.cluster "db1" fake.unmanaged) []
                   spec.present_unmanaged _)).
  by vm_compute.
Defined.

(** The six rows of the table on the example cluster. *)
Example decision_table_rows :
  let run upd take w :=
    provisionDBNamespace (fake.cfg upd take ["db1"]) "1.3.0" "db1" (w, []) in
  let absent := fake.empty in
  let unmanaged := fake.cluster "db1" fake.unmanaged in
  let managed := fake.cluster "db1" fake.managed in
  (run false false absent).1 = Normal None
  ∧ (run false false unmanaged).1 = Normal (Some (errAlreadyExists "db1"))
  ∧ (run false false managed).1 = Normal (Some (errAlreadyExists "db1"))
  ∧ (run false true absent).1 = Normal None
  ∧ (run false true unmanaged).1 = Normal None
  ∧ (run false true managed).1 = Normal None
  ∧ (run true false absent).1 = Normal (Some (errDoesNotExist "db1"))
  ∧ (run true false unmanaged).1 = Normal (Some (errNotManaged "db1"))
  ∧ (run true false managed).1 = Normal None
  ∧ installer_calls (run true false unmanaged).2.2 = [].
Proof. cbv zeta. split_and!; by vm_compute. Qed.

Lemma C10_witness :
  provisionDBNamespace (fake.cfg true false ["db1"]) "1.3.0" "db1"
    (fake.cluster "db1" fake.unmanaged, [])
  = provisionDBNamespace (fake.cfg true true ["db1"]) "1.3.0" "db1"
      (fake.cluster "db1" fake.unmanaged, []).
Proof.
  apply (C10_update_ignores_take_ownership
           (fake.cfg true false ["db1"]) (fake.cfg true true ["db1"]));
    reflexivity.
Defined.



(** A step that fails ends the run: "a" exists already, so the step for
    "c" does not start. *)
Example run_halts_at_first_failure :
  let run :=
    Run (fake.cfg false false ["b"; "a"; "c"])
      (fake.cluster "a" fake.unmanaged, []) in
  run.1 = Normal (Some (errAlreadyExists "a"))
  ∧ started run.2.2 = ["b"; "a"]
  ∧ run.2.1 !! "c" = None.
Proof. cbv zeta. split_and!; by vm_compute. Qed.

End provisioner_proofs.

(** ** More on the provisioner *)

Module provisioner_more.
Import namespaces.

Section Provision.

Context {W V : Type} `{!World W V}.

Local Abbreviation state := (@namespaces.state W V).

(** The resolver looks the namespace up once and changes nothing; a
    namespace it reports as owned exists, and with an error it reports
    neither. *)
Theorem namespaceExists_invariants namespace (w : W) (tr : list (event V)) :
  ∃ nsExists ownedByEverest err,
    namespaceExists namespace (w, tr)
      = (Normal (nsExists, ownedByEverest, err),
         (w, tr ++ [EvGetNamespace namespace]))
    ∧ (ownedByEverest = true → nsExists = true)
    ∧ (err ≠ None → nsExists = false ∧ ownedByEverest = false)
    ∧ (nsExists = true ↔ ∃ ns, GetNamespace w namespace = inr ns)
    ∧ (err = None
       ↔ (∃ ns, GetNamespace w namespace = inr ns)
         ∨ ∃ e, GetNamespace w namespace = inl e ∧ IsNotFound e = true).
Proof.
  rewrite provisioner_proofs.namespaceExists_run.
  destruct (GetNamespace w namespace) as [e|ns].
  - destruct (IsNotFound e) eqn:Hnf.
    + exists false, false, None. split; [done|]. split_and!; try done.
      * split; [done|]. by intros [ns ?].
      * split; [|done]. intros _. right. by exists e.
    + eexists false, false, (Some _). split; [done|]. split_and!; try done.
      * split; [done|]. by intros [ns ?].
      * split; [done|]. intros [[ns ?]|[e' [[= <-] ?]]]; congruence.
  - exists true, (isManagedByEverest ns), None. split; [done|].
    split_and!; try done.
    + split; [|done]. intros _. by exists ns.
    + split; [|done]. intros _. left. by exists ns.
Qed.

(** Ownership is read off one label: the namespace is owned exactly when
    the label [app.kubernetes.io/managed-by] is there with the value
    [everest]; setting, removing and other labels act accordingly. *)
Theorem isManagedByEverest_label (ns : Namespace) :
  (isManagedByEverest ns = true
   ↔ Labels ns !! "app.kubernetes.io/managed-by" = Some "everest")
  ∧ (∀ val, isManagedByEverest
              {| Labels := <[common.KubernetesManagedByLabel := val]>
                             (Labels ns) |}
            = bool_decide (val = "everest"))
  ∧ isManagedByEverest
      {| Labels := delete common.KubernetesManagedByLabel (Labels ns) |}
    = false
  ∧ (∀ key val, key ≠ common.KubernetesManagedByLabel →
       isManagedByEverest {| Labels := <[key := val]> (Labels ns) |}
       = isManagedByEverest ns).
Proof.
  unfold isManagedByEverest. simpl. split_and!.
  - change common.KubernetesManagedByLabel
      with "app.kubernetes.io/managed-by".
    destruct (Labels ns !! "app.kubernetes.io/managed-by") as [v|];
      [|done].
    rewrite bool_decide_eq_true. unfold common.Everest. naive_solver.
  - intros val. by rewrite lookup_insert_eq.
  - by rewrite lookup_delete_eq.
  - intros key val Hne. by rewrite lookup_insert_ne.
Qed.

(** When the lookup of the namespace fails for another reason than "not
    found", the step returns that error wrapped, in every mode, and
    neither the world nor the installer is touched. *)
Theorem provision_resolver_failure cfg version namespace
    (w : W) (tr : list (event V)) (err : error) :
  GetNamespace w namespace = inl err →
  IsNotFound err = false →
  provisionDBNamespace cfg version namespace (w, tr)
  = (Normal (Some (wrapError "cannot check if namesapce exists: " err)),
     (w, tr ++ [EvGetNamespace namespace])).
Proof.
  intros Hget Hnf. unfold provisionDBNamespace, bind at 1.
  rewrite provisioner_proofs.namespaceExists_run, Hget, Hnf. done.
Qed.

Lemma installRelease_calls cfg version namespace nsExists
    (w w' : W) (tr tr' : list (event V)) r :
  installRelease cfg version namespace nsExists (w, tr) = (r, (w', tr')) →
  (tr' = tr ∧ w' = w ∧ ∃ e, r = Panic e)
  ∨ ∃ i o,
      describes cfg version namespace i o
      ∧ CreateReleaseNamespace i = negb nsExists
      ∧ ((∃ e, Installer_Init w (KubeconfigPath cfg) i o = (w', Some e)
               ∧ r = Normal (Some
                        (wrapError "could not initialize Helm installer: " e))
               ∧ tr' = tr ++ [EvInit (KubeconfigPath cfg) i o])
         ∨ (∃ w1 e, Installer_Init w (KubeconfigPath cfg) i o = (w1, None)
                    ∧ Installer_Install w1 i = (w', e)
                    ∧ r = Normal e
                    ∧ tr' = tr ++ [EvInit (KubeconfigPath cfg) i o;
                                   EvInstall i])).
Proof.
  unfold installRelease, bind, Must, call_Init, call_Install, panic, ret,
    describes.
  destruct (MergeVals (getValues cfg)) as [err|values] eqn:Hv; simpl.
  - intros [= <- <- <-]. left. eauto.
  - match goal with
    | |- context [Installer_Init w _ ?i ?o] => set (inst := i); set (opts := o)
    end.
    destruct (Installer_Init w (KubeconfigPath cfg) inst opts)
      as [w1 [err|]] eqn:Hinit; simpl.
    + intros [= <- <- <-]. right. exists inst, opts.
      split; [by repeat split|]. split; [done|]. left. by exists err.
    + destruct (Installer_Install w1 inst) as [w2 r2] eqn:Hinst.
      intros [= <- <- <-]. right. exists inst, opts.
      split; [by repeat split|]. split; [done|]. right. exists w1, r2.
      split_and!; [done..|by rewrite <- app_assoc].
Qed.

Lemma provision_calls cfg version namespace
    (w w' : W) (tr tr' : list (event V)) r :
  provisionDBNamespace cfg version namespace (w, tr) = (r, (w', tr')) →
  let resolved := tr ++ [EvGetNamespace namespace] in
  (tr' = resolved ∧ w' = w)
  ∨ ∃ i o,
      describes cfg version namespace i o
      ∧ (CreateReleaseNamespace i = false
         ↔ ∃ ns, GetNamespace w namespace = inr ns)
      ∧ ((∃ e, Installer_Init w (KubeconfigPath cfg) i o = (w', Some e)
               ∧ r = Normal (Some
                        (wrapError "could not initialize Helm installer: " e))
               ∧ tr' = resolved ++ [EvInit (KubeconfigPath cfg) i o])
         ∨ (∃ w1 e, Installer_Init w (KubeconfigPath cfg) i o = (w1, None)
                    ∧ Installer_Install w1 i = (w', e)
                    ∧ r = Normal e
                    ∧ tr' = resolved ++ [EvInit (KubeconfigPath cfg) i o;
                                         EvInstall i])).
Proof.
  cbv zeta. unfold provisionDBNamespace, bind at 1.
  rewrite provisioner_proofs.namespaceExists_run.
  assert (∀ nsExists,
            (nsExists = true ↔ ∃ ns, GetNamespace w namespace = inr ns) →
            installRelease cfg version namespace nsExists
              (w, tr ++ [EvGetNamespace namespace]) = (r, (w', tr')) →
            (tr' = tr ++ [EvGetNamespace namespace] ∧ w' = w)
            ∨ ∃ i o,
                describes cfg version namespace i o
                ∧ (CreateReleaseNamespace i = false
                   ↔ ∃ ns, GetNamespace w namespace = inr ns)
                ∧ ((∃ e, Installer_Init w (KubeconfigPath cfg) i o
                         = (w', Some e)
                         ∧ r = Normal (Some
                                  (wrapError
                                     "could not initialize Helm installer: " e))
                         ∧ tr' = (tr ++ [EvGetNamespace namespace])
                                 ++ [EvInit (KubeconfigPath cfg) i o])
                   ∨ (∃ w1 e, Installer_Init w (KubeconfigPath cfg) i o
                              = (w1, None)
                              ∧ Installer_Install w1 i = (w', e)
                              ∧ r = Normal e
                              ∧ tr' = (tr ++ [EvGetNamespace namespace])
                                      ++ [EvInit (KubeconfigPath cfg) i o;
                                          EvInstall i]))) as Hinst.
  { intros nsExists Hex Hrun.
    apply installRelease_calls in Hrun
      as [(-> & -> & _)|(i & o & Hd & Hc & Hcalls)]; [by left|].
    right. exists i, o. split; [done|]. split; [|done].
    rewrite Hc, negb_false_iff. done. }
  assert (∀ e : error,
            @ret W V _ (Some e) (w, tr ++ [EvGetNamespace namespace])
              = (r, (w', tr')) →
            tr' = tr ++ [EvGetNamespace namespace] ∧ w' = w) as Hret.
  { by intros e [= _ <- <-]. }
  destruct (GetNamespace w namespace) as [e|ns] eqn:Hget.
  - assert (false = true ↔ ∃ ns, @inl error Namespace e = inr ns) as Hex
      by (split; [done|by intros [? ?]]).
    destruct (IsNotFound e); [|by left; eapply Hret].
    destruct (Update cfg), (TakeOwnership cfg); simpl; eauto.
  - assert (true = true ↔ ∃ ns0, @inr error Namespace ns = inr ns0) as Hex
      by (split; [by exists ns|done]).
    destruct (isManagedByEverest ns), (Update cfg), (TakeOwnership cfg);
      simpl; eauto.
Qed.

(** One step calls the installer at most once, for the release named
    after its namespace: either nothing beyond the lookup happens (a
    conflict, a failed lookup or a panic), or the installer is initialised
    and, only if that succeeds, asked to install.  An error of the
    initialisation comes back wrapped, the result of the installation as it
    is; the namespace is to be created exactly when the lookup did not find
    it. *)
Theorem provision_installer_discipline cfg version namespace
    (w w' : W) (tr tr' : list (event V)) r :
  provisionDBNamespace cfg version namespace (w, tr) = (r, (w', tr')) →
  let resolved := tr ++ [EvGetNamespace namespace] in
  (tr' = resolved ∧ w' = w)
  ∨ ∃ i o,
      describes cfg version namespace i o
      ∧ (CreateReleaseNamespace i = false
         ↔ ∃ ns, GetNamespace w namespace = inr ns)
      ∧ ((∃ e, Installer_Init w (KubeconfigPath cfg) i o = (w', Some e)
               ∧ r = Normal (Some
                        (wrapError "could not initialize Helm installer: " e))
               ∧ tr' = resolved ++ [EvInit (KubeconfigPath cfg) i o])
         ∨ (∃ w1 e, Installer_Init w (KubeconfigPath cfg) i o = (w1, None)
                    ∧ Installer_Install w1 i = (w', e)
                    ∧ r = Normal e
                    ∧ tr' = resolved ++ [EvInit (KubeconfigPath cfg) i o;
                                         EvInstall i])).
Proof. apply provision_calls. Qed.

Lemma provision_events cfg ver namespace l
    (w w' : W) (tr tr' : list (event V)) r :
  namespace ∈ l →
  provisionDBNamespace cfg ver namespace (w, tr) = (r, (w', tr')) →
  ∃ new, tr' = tr ++ new ∧ Forall (event_of cfg ver l) new.
Proof.
  intros Hin Hrun.
  apply provision_calls in Hrun as [[-> _]|(i & o & Hd & _ & Hcalls)].
  { eexists. split; [done|]. by repeat constructor. }
  assert (event_of cfg ver l (EvInit (KubeconfigPath cfg) i o)) as Hinit.
  { pose proof Hd as (Hname & _). simpl. rewrite Hname. by split_and!. }
  assert (event_of cfg ver l (EvInstall i)) as Hinstall.
  { pose proof Hd as (Hname & Hns & _). simpl. by rewrite Hname, Hns. }
  destruct Hcalls as [(e & _ & _ & ->)|(w1 & e & _ & _ & _ & ->)];
    rewrite <- app_assoc; eexists; (split; [done|]);
    repeat (constructor; [done|]); constructor.
Qed.

Lemma pipeline_events cfg ver l0 l :
  l ⊆ l0 →
  ∀ (w w' : W) (tr tr' : list (event V)) r,
    RunStepsWithSpinner (newStepInstallNamespace cfg ver <$> l) (w, tr)
      = (r, (w', tr')) →
    ∃ new, tr' = tr ++ new ∧ Forall (event_of cfg ver l0) new.
Proof.
  induction l as [|ns l IH]; intros Hsub w w' tr tr' r.
  - intros [= _ _ <-]. exists []. by rewrite app_nil_r.
  - rewrite fmap_cons. simpl. unfold bind at 1.
    destruct (provisionDBNamespace cfg ver ns (w, tr))
      as [r1 [w1 tr1]] eqn:Hstep.
    apply (provision_events _ _ _ l0) in Hstep as (new1 & -> & Hnew1);
      [|set_solver].
    destruct r1 as [[err|]|e].
    + intros [= _ _ <-]. eauto.
    + intros Hrest. apply IH in Hrest as (new2 & -> & Hnew2); [|set_solver].
      exists (new1 ++ new2). rewrite app_assoc. split; [done|].
      by apply Forall_app.
    + intros [= _ _ <-]. eauto.
Qed.

Lemma set_ChartDir_id cfg : set_ChartDir (ChartDir cfg) cfg = cfg.
Proof. by destruct cfg. Qed.

(** Whatever [Run] logs concerns the namespaces of its list: lookups of
    them, and releases named after them, from the chart of database
    namespaces in the version the installed Everest reports, taken from the
    configured chart directory or, for a development build without one,
    from the directory the development chart was set up in. *)
Theorem Run_installs_only_listed cfg
    (w w' : W) (tr tr' : list (event V)) r :
  Run cfg (w, tr) = (r, (w', tr')) →
  ∃ new,
    tr' = tr ++ new
    ∧ (new = []
       ∨ ∃ ver dir,
           CheckHelmInstallation w = inr ver
           ∧ (dir = ChartDir cfg
              ∨ (ChartDir cfg = "" ∧ IsDev ver = true
                 ∧ ∃ w1, SetupEverestDevChart w = (w1, inr dir)))
           ∧ Forall (event_of (set_ChartDir dir cfg) ver (NamespaceList cfg))
               new).
Proof.
  unfold Run.
  destruct (CheckHelmInstallation w) as [err|ver] eqn:Hver.
  { intros [= _ _ <-]. exists []. rewrite app_nil_r. by split; [|left]. }
  destruct (IsDev ver) eqn:Hdev; simpl;
    [case_bool_decide as Hdir|].
  - destruct (SetupEverestDevChart w) as [w1 [err|dir]] eqn:Hsetup.
    { intros [= _ _ <-]. exists []. rewrite app_nil_r. by split; [|left]. }
    unfold defer_cleanup.
    destruct (RunStepsWithSpinner _ _) as [r2 [w2 tr2]] eqn:Hrun.
    intros [= _ _ <-].
    apply (pipeline_events _ _ (NamespaceList cfg)) in Hrun
      as (new & -> & Hnew); [|done].
    exists new. split; [done|]. right. exists ver, dir.
    split_and!; [done| |done]. right. eauto.
  - intros Hrun.
    apply (pipeline_events _ _ (NamespaceList cfg)) in Hrun
      as (new & -> & Hnew); [|done].
    exists new. split; [done|]. right. exists ver, (ChartDir cfg).
    rewrite set_ChartDir_id. split_and!; [done|by left|done].
  - intros Hrun.
    apply (pipeline_events _ _ (NamespaceList cfg)) in Hrun
      as (new & -> & Hnew); [|done].
    exists new. split; [done|]. right. exists ver, (ChartDir cfg).
    rewrite set_ChartDir_id. split_and!; [done|by left|done].
Qed.

(** For a development build without a chart directory, the chart is set
    up first: when that fails, its error is returned, no step runs and
    nothing is cleaned up; when it succeeds, the steps run with the
    directory it gives, and the clean-up is applied to the world they
    leave, whether they succeed, fail or panic. *)
Theorem Run_dev_chart_cleanup cfg (w w1 : W) (tr : list (event V))
    (ver : string) (res : error + string) :
  CheckHelmInstallation w = inr ver →
  IsDev ver = true →
  ChartDir cfg = "" →
  SetupEverestDevChart w = (w1, res) →
  match res with
  | inl err => Run cfg (w, tr) = (Normal (Some err), (w1, tr))
  | inr dir =>
      ∃ r w2 tr2,
        RunStepsWithSpinner
          (newStepInstallNamespace (set_ChartDir dir cfg) ver
             <$> NamespaceList cfg) (w1, tr) = (r, (w2, tr2))
        ∧ Run cfg (w, tr) = (r, (cleanup w2, tr2))
  end.
Proof.
  intros Hver Hdev Hdir Hsetup. unfold Run.
  rewrite Hver, Hdev, Hdir, Hsetup. simpl.
  destruct res as [err|dir]; [done|]. unfold defer_cleanup.
  destruct (RunStepsWithSpinner _ _) as [r [w2 tr2]] eqn:Hrun.
  by exists r, w2, tr2.
Qed.

(** When the installed Everest cannot be determined, [Run] gives up at
    once; a release build, or a configured chart directory, sets no chart
    up and cleans nothing up. *)
Theorem Run_without_dev_chart cfg (w : W) (tr : list (event V)) :
  match CheckHelmInstallation w with
  | inl err => Run cfg (w, tr) = (Normal (Some err), (w, tr))
  | inr ver =>
      IsDev ver = false ∨ ChartDir cfg ≠ "" →
      Run cfg (w, tr)
      = RunStepsWithSpinner
          (newStepInstallNamespace cfg ver <$> NamespaceList cfg) (w, tr)
  end.
Proof.
  unfold Run. destruct (CheckHelmInstallation w) as [err|ver]; [done|].
  intros [->|Hdir]; [done|].
  rewrite bool_decide_eq_false_2 by done. by rewrite andb_false_r.
Qed.

End Provision.

Lemma provision_resolver_failure_witness :
  provisionDBNamespace (fake.cfg false true ["db1"]) "1.3.0" "db1"
    (fake.faulty_cluster fake.Unreachable ∅, [])
  = (Normal (Some (wrapError "cannot check if namesapce exists: "
                     (errorString "connection refused"))),
     (fake.faulty_cluster fake.Unreachable ∅, [EvGetNamespace "db1"])).
Proof.
  apply (provision_resolver_failure (fake.cfg false true ["db1"]) "1.3.0"
           "db1" (fake.faulty_cluster fake.Unreachable ∅) []);
    reflexivity.
Defined.

(** A failing initialisation: the installation is not attempted. *)
Lemma provision_installer_discipline_witness :
  ∃ i o,
    (provisionDBNamespace (fake.cfg false false ["db1"]) "1.3.0" "db1"
       (fake.faulty_cluster fake.InitFails ∅, [])).2.2
    = [EvGetNamespace "db1"; EvInit "" i o].
Proof.
  destruct (provisionDBNamespace (fake.cfg false false ["db1"]) "1.3.0" "db1"
              (fake.faulty_cluster fake.InitFails ∅, []))
    as [r [w' tr']] eqn:Hrun.
  destruct (provision_installer_discipline _ _ _ _ _ _ _ _ Hrun)
    as [[Htr _]|(i & o & _ & _
                 & [(e & _ & _ & Htr)|(w1 & e & Hinit & _)])].
  - vm_compute in Hrun. injection Hrun as <- <- <-. discriminate.
  - exists i, o. exact Htr.
  - vm_compute in Hinit. discriminate.
Defined.

Lemma Run_installs_only_listed_witness :
  ∃ new,
    (Run (fake.cfg false false ["b"; "a"]) (fake.empty, [])).2.2 = [] ++ new.
Proof.
  destruct (Run (fake.cfg false false ["b"; "a"]) (fake.empty, []))
    as [r [w' tr']] eqn:Hrun.
  destruct (Run_installs_only_listed _ _ _ _ _ _ Hrun) as (new & Hnew & _).
  by exists new.
Defined.

Lemma Run_dev_chart_cleanup_witness :
  Run (fake.cfg false false ["db1"])
    (fake.faulty_cluster fake.DevSetupFails ∅, [])
  = (Normal (Some (errorString "cannot unpack the chart")),
     (fake.faulty_cluster fake.DevSetupFails ∅, [])).
Proof.
  exact (Run_dev_chart_cleanup (fake.cfg false false ["db1"])
           (fake.faulty_cluster fake.DevSetupFails ∅)
           (fake.faulty_cluster fake.DevSetupFails ∅) [] "0.0.0"
           (inl (errorString "cannot unpack the chart"))
           eq_refl eq_refl eq_refl eq_refl).
Defined.

(** A development build: the chart is unpacked for the steps and removed
    after them, also when a step fails. *)
Example dev_run_cleans_up :
  let run :=
    Run (fake.cfg false false ["db1"])
      (fake.faulty_cluster fake.DevBuild (fake.cluster "db1" fake.unmanaged),
       []) in
  run.1 = Normal (Some (errAlreadyExists "db1"))
  ∧ fake.chart_unpacked run.2.1 = false.
Proof. cbv zeta. split; by vm_compute. Qed.

End provisioner_more.

(** ** More on the validator *)

Module validator_more.
Import namespaces.

Section Validate.

Variable OLMNamespace : string.

Local Abbreviation reserved := (namespaces.reserved OLMNamespace).
Local Abbreviation passes := (namespaces.passes OLMNamespace).
Local Abbreviation validate_loop := (namespaces.validate_loop OLMNamespace).
Local Abbreviation ValidateNamespaces :=
  (namespaces.ValidateNamespaces OLMNamespace).



Lemma ValidateNamespaces_inr_nonempty o str l :
  ValidateNamespaces o str = inr l →
  spec.tokens str ≠ [] ∧ l ≠ []
  ∧ (length l ≤ length (strings.Split str))%nat.
Proof.
  intros Hv.
  destruct (validator_proofs.ValidateNamespaces_cases OLMNamespace o str)
    as [[_ He]|[(Hne & _ & Hr)|(pre & t & post & _ & _ & _ & Hr)]];
    [congruence| |congruence].
  rewrite Hv in Hr. injection Hr as ->.
  pose proof (range_keys_perm o (list_to_set (spec.tokens str))) as Hperm.
  split_and!; [done| |].
  - intros Hnil. rewrite Hnil in Hperm. apply Permutation_nil_l in Hperm.
    symmetry in Hperm. apply elements_empty_inv in Hperm.
    destruct (spec.tokens str) as [|t ts]; [done|]. set_solver.
  - rewrite Hperm.
    assert (length (elements (list_to_set (C:=gset string) (spec.tokens str)))
            ≤ length (spec.tokens str))%nat as Hlen.
    { generalize (spec.tokens str) as ts. intros ts.
      induction ts as [|t ts IH];
        [by rewrite list_to_set_nil, elements_empty|].
      rewrite list_to_set_cons. cbn [length].
      destruct (decide (t ∈ (list_to_set ts : gset string))) as [Hin|Hnin].
      - replace ({[t]} ∪ list_to_set ts) with (list_to_set ts : gset string)
          by set_solver. lia.
      - rewrite elements_union_singleton by done. cbn [length]. lia. }
    etrans; [exact Hlen|]. unfold spec.tokens.
    etrans; [apply length_filter|]. by rewrite length_fmap.
Qed.

Lemma ValidateNamespaces_same_tokens (o1 o2 : MapOrder)
    (str1 str2 : string) (l1 : list string) :
  (∀ t, t ∈ spec.tokens str1 ↔ t ∈ spec.tokens str2) →
  ValidateNamespaces o1 str1 = inr l1 →
  ∃ l2, ValidateNamespaces o2 str2 = inr l2 ∧ l1 ≡ₚ l2.
Proof.
  intros Hsame Hv1.
  pose proof (ValidateNamespaces_inr_nonempty _ _ _ Hv1) as (Hne1 & _ & _).
  apply validator_proofs.ValidateNamespaces_inr in Hv1 as [Hall1 ->].
  assert (spec.tokens str2 ≠ []) as Hne2.
  { destruct (spec.tokens str1) as [|t ts]; [done|].
    intros Hnil. rewrite Hnil in Hsame.
    destruct (Hsame t) as [Hin _]. by apply elem_of_nil in Hin; [|left]. }
  assert (Forall (λ t, passes t = true) (spec.tokens str2)) as Hall2.
  { rewrite Forall_forall in Hall1 |- *. intros t Ht. apply Hall1.
    by apply Hsame. }
  eexists. split; [by apply validator_proofs.ValidateNamespaces_accept|].
  apply NoDup_Permutation; [apply validator_proofs.range_keys_NoDup..|].
  intros t. rewrite !validator_proofs.range_keys_elem_of. apply Hsame.
Qed.

(** Whether an input is accepted, and the set of names it gives, depend
    neither on the order of the names, nor on repetitions, nor on the order
    in which the map is iterated. *)
Theorem ValidateNamespaces_order_insensitive (o1 o2 : MapOrder)
    (str1 str2 : string) (l1 : list string) :
  (∀ t, t ∈ spec.tokens str1 ↔ t ∈ spec.tokens str2) →
  ValidateNamespaces o1 str1 = inr l1 →
  ∃ l2, ValidateNamespaces o2 str2 = inr l2 ∧ l1 ≡ₚ l2.
Proof. apply ValidateNamespaces_same_tokens. Qed.

End Validate.


Lemma ValidateNamespaces_order_insensitive_witness :
  ∃ l2, ValidateNamespaces fake.OLMNamespace elements_order "b,a,b" = inr l2
        ∧ ["b"; "a"] ≡ₚ l2.
Proof.
  apply (ValidateNamespaces_order_insensitive fake.OLMNamespace
           reverse_order elements_order "a,b" "b,a,b" ["b"; "a"]).
  - intros t.
    assert (spec.tokens "a,b" = ["a"; "b"]) as -> by (by vm_compute).
    assert (spec.tokens "b,a,b" = ["b"; "a"; "b"]) as -> by (by vm_compute).
    set_solver.
  - by vm_compute.
Defined.

End validator_more.

(** ** The wizard and the values *)

Module wizard_more.
Import namespaces.

Lemma set_flag_in_range i op :
  in_range_index i →
  ∃ op', set_flag i op = Some op'
         ∧ (PXC op' = true ↔ PXC op = true ∨ i = 0%Z)
         ∧ (PSMDB op' = true ↔ PSMDB op = true ∨ i = 1%Z)
         ∧ (PG op' = true ↔ PG op = true ∨ i = 2%Z).
Proof.
  unfold in_range_index, set_flag. intros Hi.
  destruct (i =? 0)%Z eqn:H0; [|destruct (i =? 1)%Z eqn:H1;
                                  [|destruct (i =? 2)%Z eqn:H2]];
    try (eexists; split; [done|]; simpl; split_and!; split; intros;
         try done; try lia; naive_solver lia).
  lia.
Qed.

Lemma set_flag_out_of_range i op :
  ¬ in_range_index i → set_flag i op = None.
Proof.
  unfold in_range_index, set_flag. intros Hi.
  destruct (i =? 0)%Z eqn:H0; [lia|].
  destruct (i =? 1)%Z eqn:H1; [lia|].
  destruct (i =? 2)%Z eqn:H2; [lia|done].
Qed.

Lemma select_flags_in_range idxs op :
  Forall in_range_index idxs →
  ∃ op', select_flags idxs op = Normal op'
         ∧ (PXC op' = true ↔ PXC op = true ∨ 0%Z ∈ idxs)
         ∧ (PSMDB op' = true ↔ PSMDB op = true ∨ 1%Z ∈ idxs)
         ∧ (PG op' = true ↔ PG op = true ∨ 2%Z ∈ idxs).
Proof.
  intros Hall. revert op. induction Hall as [|i idxs Hi _ IH]; intros op.
  - exists op. split; [done|]. set_solver.
  - simpl.
    destruct (set_flag_in_range i op Hi) as (op1 & -> & Hx & Hm & Hg).
    destruct (IH op1) as (op' & -> & Hx' & Hm' & Hg').
    exists op'. split; [done|].
    rewrite Hx', Hm', Hg', Hx, Hm, Hg. set_solver.
Qed.

Lemma select_flags_normal idxs op op' :
  select_flags idxs op = Normal op' → Forall in_range_index idxs.
Proof.
  revert op. induction idxs as [|i idxs IH]; intros op; [by constructor|].
  simpl. destruct (decide (in_range_index i)) as [Hi|Hi].
  - destruct (set_flag i op) as [op1|]; [|done].
    intros Hsel. constructor; eauto.
  - by rewrite set_flag_out_of_range.
Qed.

Lemma bool_flag_to_set (b : bool) (i : Z) :
  ((if b then [i] else []) = [i] ↔ b = true)
  ∧ (i ∈ (if b then [i] else []) ↔ b = true).
Proof. destruct b; set_solver. Qed.

Lemma select_flags_out_of_range idxs op :
  ¬ Forall in_range_index idxs → ∃ e, select_flags idxs op = Panic e.
Proof.
  intros Hnot. destruct (select_flags idxs op) as [op'|e] eqn:Hsel; [|eauto].
  by apply select_flags_normal in Hsel.
Qed.

(** A selection decides the three flags: the operators chosen are set and
    the others are cleared, whatever they were before; an index that is
    none of the three options makes the call panic. *)
Theorem populateOperators_selection
    (askOperators : list string → list string → error + list Z)
    (cfg : NamespaceAddConfig) (opIndexes : list Z) :
  askOperators (operatorDefaults (Operator cfg)) operatorLabels
    = inr opIndexes →
  opIndexes ≠ [] →
  (Forall in_range_index opIndexes →
   ∃ op, populateOperators askOperators cfg
         = Normal (set_Operator op cfg, None)
         ∧ (PXC op = true ↔ 0%Z ∈ opIndexes)
         ∧ (PSMDB op = true ↔ 1%Z ∈ opIndexes)
         ∧ (PG op = true ↔ 2%Z ∈ opIndexes))
  ∧ (¬ Forall in_range_index opIndexes →
     ∃ e, populateOperators askOperators cfg = Panic e).
Proof.
  intros Hask Hne. unfold populateOperators. rewrite Hask.
  destruct opIndexes as [|i rest]; [done|]. cbn [length Nat.eqb andb].
  split.
  - intros Hall.
    destruct (select_flags_in_range (i :: rest)
                {| PG := false; PSMDB := false; PXC := false |} Hall)
      as (op & -> & Hx & Hm & Hg).
    exists op. split; [done|]. simpl in Hx, Hm, Hg. naive_solver.
  - intros Hnot.
    destruct (select_flags_out_of_range (i :: rest)
                {| PG := false; PSMDB := false; PXC := false |} Hnot)
      as [e ->].
    by exists e.
Qed.

(** Without a selection: an error of the prompt is returned as it is; an
    empty selection is an error when there are namespaces to install into,
    and the configuration keeps its flags; with no namespace it clears the
    three flags without an error. *)
Theorem populateOperators_no_selection
    (askOperators : list string → list string → error + list Z)
    (cfg : NamespaceAddConfig) :
  (∀ err,
     askOperators (operatorDefaults (Operator cfg)) operatorLabels = inl err →
     populateOperators askOperators cfg = Normal (cfg, Some err))
  ∧ (askOperators (operatorDefaults (Operator cfg)) operatorLabels = inr [] →
     NamespaceList cfg ≠ [] →
     populateOperators askOperators cfg
     = Normal (cfg, Some ErrNoOperatorsSelected))
  ∧ (askOperators (operatorDefaults (Operator cfg)) operatorLabels = inr [] →
     NamespaceList cfg = [] →
     populateOperators askOperators cfg
     = Normal (set_Operator {| PG := false; PSMDB := false; PXC := false |}
                 cfg, None)).
Proof.
  unfold populateOperators. split_and!.
  - by intros err ->.
  - intros -> Hne. by destruct (NamespaceList cfg).
  - by intros -> ->.
Qed.


Lemma select_flags_some_selected i rest op op' :
  select_flags (i :: rest) op = Normal op' →
  PXC op' || PSMDB op' || PG op' = true.
Proof.
  intros Hsel. pose proof (select_flags_normal _ _ _ Hsel) as Hall.
  destruct (select_flags_in_range (i :: rest) op Hall)
    as (op1 & Hsel1 & Hx & Hm & Hg).
  rewrite Hsel in Hsel1. injection Hsel1 as <-.
  apply Forall_cons in Hall as [Hi _]. unfold in_range_index in Hi.
  assert (i = 0 ∨ i = 1 ∨ i = 2)%Z as [->|[->| ->]] by lia.
  - assert (PXC op' = true) as -> by (apply Hx; right; set_solver). done.
  - assert (PSMDB op' = true) as -> by (apply Hm; right; set_solver).
    by rewrite orb_true_r.
  - assert (PG op' = true) as -> by (apply Hg; right; set_solver).
    by rewrite orb_true_r.
Qed.

(** What a successful [Populate] leaves: a list of namespaces that is not
    empty and has no duplicates, of names that are DNS labels and not
    reserved; and, when the operators were asked for, at least one operator
    selected.  Nothing else of the configuration is changed. *)
Theorem Populate_success (OLMNamespace : string) (o : MapOrder)
    (ask : string → error + string)
    (askOperators : list string → list string → error + list Z)
    (cfg cfg' : NamespaceAddConfig) (askNamespaces askOps : bool) :
  Populate OLMNamespace o ask askOperators cfg askNamespaces askOps
    = Normal (cfg', None) →
  NamespaceList cfg' ≠ []
  ∧ NoDup (NamespaceList cfg')
  ∧ Forall (λ ns, reserved OLMNamespace ns = false ∧ spec.dns_label ns)
      (NamespaceList cfg')
  ∧ (askOps = true → SkipWizard cfg = false →
     PXC (Operator cfg') || PSMDB (Operator cfg') || PG (Operator cfg') = true)
  ∧ (askOps = false ∨ SkipWizard cfg = true → Operator cfg' = Operator cfg)
  ∧ cfg' = set_Operator (Operator cfg')
             (set_NamespaceList (NamespaceList cfg') cfg).
Proof.
  unfold Populate, populateNamespaces.
  destruct (if askNamespaces && negb (SkipWizard cfg)
            then ask (Namespaces cfg) else inr (Namespaces cfg))
    as [err|namespaces]; [done|].
  destruct (ValidateNamespaces OLMNamespace o namespaces) as [err|l] eqn:Hv;
    [done|].
  pose proof (validator_more.ValidateNamespaces_inr_nonempty _ _ _ _ Hv)
    as (_ & Hne & _).
  pose proof (validator_proofs.ValidateNamespaces_inr _ _ _ _ Hv)
    as [Hall Hl].
  assert (NoDup l) as Hnodup
    by (rewrite Hl; apply validator_proofs.range_keys_NoDup).
  assert (Forall (λ ns, reserved OLMNamespace ns = false ∧ spec.dns_label ns)
            l) as Hvalid.
  { rewrite Forall_forall in Hall |- *. intros ns Hns.
    apply validator_proofs.passes_spec, Hall.
    rewrite Hl in Hns. by apply validator_proofs.range_keys_elem_of in Hns. }
  cbn [NamespaceList set_NamespaceList SkipWizard].
  destruct l as [|n l]; [done|]. cbn [length Nat.ltb Nat.leb andb].
  rewrite andb_true_r.
  destruct askOps, (SkipWizard cfg) eqn:Hskip; cbn [andb negb];
    try (intros [= <-]; split_and!; try done; try (by destruct cfg);
         naive_solver).
  unfold populateOperators. cbn [Operator set_NamespaceList NamespaceList].
  destruct (askOperators _ _) as [err|idxs]; [done|].
  destruct idxs as [|i rest]; [done|]. cbn [length Nat.eqb andb].
  destruct (select_flags _ _) as [op|e] eqn:Hsel; [|done].
  intros [= <-]. cbn [NamespaceList set_Operator Operator].
  split_and!;
    first [ done
          | by destruct cfg
          | intros _ _; by eapply select_flags_some_selected
          | naive_solver ].
Qed.

(** With the wizard skipped nothing is asked: the outcome is that of
    validating the configured string, whatever the prompts would answer. *)
Theorem Populate_skip_wizard (OLMNamespace : string) (o : MapOrder)
    (ask : string → error + string)
    (askOperators : list string → list string → error + list Z)
    (cfg : NamespaceAddConfig) (askNamespaces askOps : bool) :
  SkipWizard cfg = true →
  Populate OLMNamespace o ask askOperators cfg askNamespaces askOps
  = match ValidateNamespaces OLMNamespace o (Namespaces cfg) with
    | inl err => Normal (cfg, Some err)
    | inr list => Normal (set_NamespaceList list cfg, None)
    end.
Proof.
  intros Hskip. unfold Populate, populateNamespaces.
  rewrite Hskip, andb_false_r.
  destruct (ValidateNamespaces _ _ _) as [err|l]; [done|].
  cbn [SkipWizard set_NamespaceList]. rewrite Hskip.
  by rewrite andb_false_r.
Qed.

(** The values handed to Helm tell the flags apart: two configurations
    give the same values exactly when they agree on the three operators
    and on telemetry. *)
Theorem getValues_determines_flags (cfg1 cfg2 : NamespaceAddConfig) :
  getValues cfg1 = getValues cfg2
  ↔ Operator cfg1 = Operator cfg2
    ∧ DisableTelemetry cfg1 = DisableTelemetry cfg2.
Proof.
  unfold getValues.
  destruct (Operator cfg1) as [pg1 psmdb1 pxc1],
    (Operator cfg2) as [pg2 psmdb2 pxc2]. simpl.
  destruct (DisableTelemetry cfg1), (DisableTelemetry cfg2),
    pg1, pg2, psmdb1, psmdb2, pxc1, pxc2; simpl;
    split; intros H; try done; try (by destruct H); discriminate.
Qed.

Lemma populateOperators_selection_witness :
  ∃ op, populateOperators (fake.select [2%Z; 0%Z])
          (fake.cfg false false ["db1"])
        = Normal (set_Operator op (fake.cfg false false ["db1"]), None)
        ∧ (PXC op = true ↔ 0%Z ∈ [2%Z; 0%Z])
        ∧ (PSMDB op = true ↔ 1%Z ∈ [2%Z; 0%Z])
        ∧ (PG op = true ↔ 2%Z ∈ [2%Z; 0%Z]).
Proof.
  refine (proj1 (populateOperators_selection (fake.select [2%Z; 0%Z])
                   (fake.cfg false false ["db1"]) [2%Z; 0%Z] _ _) _).
  - reflexivity.
  - discriminate.
  - repeat constructor; unfold in_range_index; lia.
Defined.


Lemma Populate_success_witness :
  NamespaceList
    (set_Operator {| PG := false; PSMDB := true; PXC := false |}
       (set_NamespaceList ["db1"]
          (set_SkipWizard false (fake.cfg false false [])))) ≠ [].
Proof.
  refine (proj1 (Populate_success fake.OLMNamespace elements_order
                   (fake.answer " db1 ,db1") (fake.select [1%Z])
                   (set_SkipWizard false (fake.cfg false false []))
                   _ true true _)).
  by vm_compute.
Defined.

Lemma Populate_skip_wizard_witness :
  Populate fake.OLMNamespace elements_order (fake.answer "other")
    (fake.select []) (set_Namespaces "db1" (fake.cfg false false []))
    true true
  = Normal (set_NamespaceList ["db1"]
              (set_Namespaces "db1" (fake.cfg false false [])), None).
Proof.
  refine (eq_trans (Populate_skip_wizard fake.OLMNamespace elements_order
                      (fake.answer "other") (fake.select [])
                      (set_Namespaces "db1" (fake.cfg false false []))
                      true true _) _).
  - reflexivity.
  - by vm_compute.
Defined.

End wizard_more.

(** ** More on the restore handlers *)

Module api_more.
Import api.

Section Gate.

Variable ObjectName : string → string → string.
Variable Error : error → string.
Variable attachK8sTypeMeta : ClusterRestore → ClusterRestore.

(** The request has passed the steps that come before authorization. *)
Local Abbreviation prepared ctx namespace user restore spec dbCluster :=
  (GetUser ctx = inr user
   ∧ getBodyFromContext ctx = inr restore
   ∧ validateDatabaseClusterRestore ctx namespace restore = None
   ∧ Spec restore = Some spec
   ∧ GetDatabaseCluster ctx namespace (DbClusterName spec) = inr dbCluster).

(** The creation of a restore is passed on to the cluster only for a
    request that is authenticated, decodes and validates, whose target
    cluster exists and is not being restored, and whose user holds all
    three grants. *)
Theorem Create_proxies_only_when_authorized
    (enforce : string → resource → action → string → option error)
    (ctx : Request) (namespace n k nm : string) :
  CreateDatabaseClusterRestore enforce ObjectName Error ctx namespace
    = Proxy n k nm →
  (n = namespace ∧ k = "databaseclusterrestores" ∧ nm = "")
  ∧ ∃ user restore spec dbCluster,
      prepared ctx namespace user restore spec dbCluster
      ∧ Status dbCluster ≠ "restoring"
      ∧ enforce user ResourceDatabaseClusterCredentials ActionRead
          (ObjectName namespace (GetName dbCluster)) = None
      ∧ enforce user ResourceDatabaseClusterBackups ActionRead
          (ObjectName namespace (default "" (DbClusterBackupName spec)))
        = None
      ∧ enforce user ResourceDatabaseClusterRestores ActionRead
          (ObjectName namespace (GetName dbCluster)) = None.
Proof.
  unfold CreateDatabaseClusterRestore, enforceDBRestoreRBAC.
  destruct (GetUser ctx) as [?|user]; [done|].
  destruct (getBodyFromContext ctx) as [?|restore]; [done|].
  destruct (validateDatabaseClusterRestore ctx namespace restore) eqn:Hval;
    [done|].
  destruct (Spec restore) as [spec|] eqn:Hspec; [|done].
  destruct (GetDatabaseCluster ctx namespace (DbClusterName spec))
    as [?|dbCluster] eqn:Hget; [done|].
  destruct (enforce user ResourceDatabaseClusterCredentials _ _) eqn:H1;
    [done|].
  destruct (enforce user ResourceDatabaseClusterBackups _ _) eqn:H2; [done|].
  destruct (enforce user ResourceDatabaseClusterRestores _ _) eqn:H3; [done|].
  case_bool_decide as Hst; [done|].
  intros [= <- <- <-]. split; [done|].
  exists user, restore, spec, dbCluster. by split_and!.
Qed.

(** The creation consults the enforcer about the three grants and nothing
    else, and not at all for a request that fails an earlier step: two
    enforcers that agree on these three questions give the same response. *)
Theorem Create_consults_three_grants
    (enforce1 enforce2 : string → resource → action → string → option error)
    (ctx : Request) (namespace : string) :
  (∀ user restore spec dbCluster,
     prepared ctx namespace user restore spec dbCluster →
     enforce1 user ResourceDatabaseClusterCredentials ActionRead
       (ObjectName namespace (GetName dbCluster))
     = enforce2 user ResourceDatabaseClusterCredentials ActionRead
         (ObjectName namespace (GetName dbCluster))
     ∧ enforce1 user ResourceDatabaseClusterBackups ActionRead
         (ObjectName namespace (default "" (DbClusterBackupName spec)))
       = enforce2 user ResourceDatabaseClusterBackups ActionRead
           (ObjectName namespace (default "" (DbClusterBackupName spec)))
     ∧ enforce1 user ResourceDatabaseClusterRestores ActionRead
         (ObjectName namespace (GetName dbCluster))
       = enforce2 user ResourceDatabaseClusterRestores ActionRead
           (ObjectName namespace (GetName dbCluster))) →
  CreateDatabaseClusterRestore enforce1 ObjectName Error ctx namespace
  = CreateDatabaseClusterRestore enforce2 ObjectName Error ctx namespace.
Proof.
  intros Hagree. unfold CreateDatabaseClusterRestore, enforceDBRestoreRBAC.
  destruct (GetUser ctx) as [?|user] eqn:Huser; [done|].
  destruct (getBodyFromContext ctx) as [?|restore] eqn:Hbody; [done|].
  destruct (validateDatabaseClusterRestore ctx namespace restore) eqn:Hval;
    [done|].
  destruct (Spec restore) as [spec|] eqn:Hspec; [|done].
  destruct (GetDatabaseCluster ctx namespace (DbClusterName spec))
    as [?|dbCluster] eqn:Hget; [done|].
  destruct (Hagree user restore spec dbCluster) as (-> & -> & ->);
    [by split_and!|done].
Qed.

(** The handlers of one restore act only for a user who holds the grant
    of their action (delete, read, update) on the restores of the cluster
    that the stored restore belongs to, in the namespace of that restore;
    an update also needs a body that decodes and validates.  On the
    way to the cluster they pass the namespace and the name on as given. *)
Theorem restore_handlers_gate
    (enforce : string → resource → action → string → option error)
    (ctx : RestoreRequest) (namespace name : string) :
  let granted act :=
    ∃ user rs,
      GetUser (request ctx) = inr user
      ∧ kubeClient_GetDatabaseClusterRestore ctx namespace name = inr rs
      ∧ enforce user ResourceDatabaseClusterRestores act
          (ObjectName (GetNamespace rs) (DBClusterName rs)) = None in
  (∀ n k nm,
     DeleteDatabaseClusterRestore enforce ObjectName Error ctx namespace name
       = Proxy n k nm
     ↔ (n = namespace ∧ k = "databaseclusterrestores" ∧ nm = name)
       ∧ granted ActionDelete)
  ∧ (∀ status obj,
       GetDatabaseClusterRestore enforce ObjectName Error attachK8sTypeMeta
         ctx namespace name = Object status obj
       ↔ status = 200
         ∧ ∃ user rs,
             GetUser (request ctx) = inr user
             ∧ kubeClient_GetDatabaseClusterRestore ctx namespace name
               = inr rs
             ∧ enforce user ResourceDatabaseClusterRestores ActionRead
                 (ObjectName (GetNamespace rs) (DBClusterName rs)) = None
             ∧ obj = attachK8sTypeMeta rs)
  ∧ (∀ n k nm,
       UpdateDatabaseClusterRestore enforce ObjectName Error ctx namespace name
         = Proxy n k nm
       ↔ (n = namespace ∧ k = "databaseclusterrestores" ∧ nm = name)
         ∧ granted ActionUpdate
         ∧ ∃ restore,
             getBodyFromContext (request ctx) = inr restore
             ∧ validateMetadata ctx restore = None
             ∧ validateDatabaseClusterRestore (request ctx) namespace restore
               = None).
Proof.
  cbv zeta.
  unfold DeleteDatabaseClusterRestore, GetDatabaseClusterRestore,
    UpdateDatabaseClusterRestore, enforceDBClusterListRestoreRBAC.
  destruct (GetUser (request ctx)) as [?|user].
  { split_and!; intros; (split; [done|]); naive_solver. }
  destruct (kubeClient_GetDatabaseClusterRestore ctx namespace name)
    as [?|rs].
  { split_and!; intros; (split; [done|]); naive_solver. }
  destruct (enforce user ResourceDatabaseClusterRestores ActionDelete _)
    eqn:Hdel;
    destruct (enforce user ResourceDatabaseClusterRestores ActionRead _)
      eqn:Hread;
    destruct (enforce user ResourceDatabaseClusterRestores ActionUpdate _)
      eqn:Hupd;
    destruct (getBodyFromContext (request ctx)) as [?|restore];
    try destruct (validateMetadata ctx restore) eqn:Hmeta;
    try destruct (validateDatabaseClusterRestore (request ctx) namespace
                    restore) eqn:Hval;
    split_and!; intros; split; intros; naive_solver.
Qed.

(** Each of these handlers asks the enforcer one question, about the
    stored restore: enforcers that agree on it give the same response.
    An update in particular asks nothing about the cluster its body
    names. *)
Theorem restore_handlers_consult_one_grant
    (enforce1 enforce2 : string → resource → action → string → option error)
    (ctx : RestoreRequest) (namespace name : string) :
  let agree act :=
    ∀ user rs,
      GetUser (request ctx) = inr user →
      kubeClient_GetDatabaseClusterRestore ctx namespace name = inr rs →
      enforce1 user ResourceDatabaseClusterRestores act
        (ObjectName (GetNamespace rs) (DBClusterName rs))
      = enforce2 user ResourceDatabaseClusterRestores act
          (ObjectName (GetNamespace rs) (DBClusterName rs)) in
  (agree ActionDelete →
   DeleteDatabaseClusterRestore enforce1 ObjectName Error ctx namespace name
   = DeleteDatabaseClusterRestore enforce2 ObjectName Error ctx namespace name)
  ∧ (agree ActionRead →
     GetDatabaseClusterRestore enforce1 ObjectName Error attachK8sTypeMeta
       ctx namespace name
     = GetDatabaseClusterRestore enforce2 ObjectName Error attachK8sTypeMeta
         ctx namespace name)
  ∧ (agree ActionUpdate →
     UpdateDatabaseClusterRestore enforce1 ObjectName Error ctx namespace name
     = UpdateDatabaseClusterRestore enforce2 ObjectName Error ctx namespace
         name).
Proof.
  cbv zeta.
  unfold DeleteDatabaseClusterRestore, GetDatabaseClusterRestore,
    UpdateDatabaseClusterRestore, enforceDBClusterListRestoreRBAC.
  destruct (GetUser (request ctx)) as [?|user]; [done|].
  destruct (kubeClient_GetDatabaseClusterRestore ctx namespace name)
    as [?|rs]; [done|].
  split_and!; intros Hagree; by rewrite (Hagree user rs).
Qed.

Section Filter.

Variable enforce : string → resource → action → string → option error.
Variable Item : Type.
Variable FromUnstructured : Item → error + ClusterRestore.

Local Abbreviation verdict_of :=
  (item_verdict enforce ObjectName Item FromUnstructured).
Local Abbreviation is_allowed :=
  (allowed enforce ObjectName Item FromUnstructured).
Local Abbreviation loop := (filter_loop enforce ObjectName Item FromUnstructured).
Local Abbreviation rbac_filter :=
  (rbacFilter enforce ObjectName Item FromUnstructured).

Lemma loop_acc user items acc :
  loop user items acc =
    match loop user items [] with
    | inl err => inl err
    | inr out => inr (acc ++ out)
    end.
Proof.
  revert acc.
  induction items as [|obj rest IH]; intros acc.
  - simpl. by rewrite app_nil_r.
  - rewrite !(api_proofs.loop_step enforce ObjectName Item FromUnstructured).
    destruct (verdict_of user obj); [|done..].
    rewrite (IH (acc ++ [obj])), (IH ([] ++ [obj])).
    destruct (loop user rest []); [done|]. by rewrite <- app_assoc.
Qed.

Lemma loop_app user items1 items2 :
  loop user (items1 ++ items2) [] =
    match loop user items1 [] with
    | inl err => inl err
    | inr out => loop user items2 out
    end.
Proof.
  generalize (@nil Item) as acc.
  induction items1 as [|obj rest IH]; intros acc; [done|].
  simpl app.
  rewrite !(api_proofs.loop_step enforce ObjectName Item FromUnstructured).
  destruct (verdict_of user obj); auto.
Qed.

Lemma filter_success_verdicts user items out :
  rbac_filter user items = (out, None) →
  Forall (λ obj, verdict_of user obj = Allowed ∨ verdict_of user obj = Denied)
    items.
Proof.
  intros Hf. apply Forall_forall. intros obj Hin.
  destruct (api_proofs.verdict_cases enforce ObjectName Item FromUnstructured
              user obj) as [?|[?|[err Hfail]]]; [by left|by right|].
  exfalso.
  destruct (api_proofs.first_failure_split enforce ObjectName Item
              FromUnstructured user items)
    as (pre & bad & post & e & -> & Hpre & Hbad).
  { apply Exists_exists. exists obj. eauto. }
  unfold rbacFilter in Hf.
  by rewrite (api_proofs.loop_first_failure enforce ObjectName Item
                FromUnstructured user pre bad post e [] Hpre Hbad) in Hf.
Qed.

(** Filtering goes through a list part by part: two parts that filter
    well give their results one after the other; a part that fails makes
    the whole list fail with its error.  Filtering a second time changes
    nothing, and the filter never returns an item it was not given. *)
Theorem rbacFilter_composes (user : string) (items1 items2 : list Item) :
  (∀ out1 out2,
     rbac_filter user items1 = (out1, None) →
     rbac_filter user items2 = (out2, None) →
     rbac_filter user (items1 ++ items2) = (out1 ++ out2, None))
  ∧ (∀ kept err,
       rbac_filter user items1 = (kept, Some err) →
       rbac_filter user (items1 ++ items2) = (items1 ++ items2, Some err))
  ∧ (∀ out1 kept err,
       rbac_filter user items1 = (out1, None) →
       rbac_filter user items2 = (kept, Some err) →
       rbac_filter user (items1 ++ items2) = (items1 ++ items2, Some err))
  ∧ (∀ out1,
       rbac_filter user items1 = (out1, None) →
       rbac_filter user out1 = (out1, None))
  ∧ (∀ out err, rbac_filter user items1 = (out, err) → out `sublist_of` items1).
Proof.
  unfold rbacFilter. split_and!.
  - intros out1 out2. rewrite loop_app.
    destruct (loop user items1 []) as [?|o1]; [done|].
    intros [= ->] H2. rewrite (loop_acc user items2 out1).
    destruct (loop user items2 []) as [?|o2]; [done|]. by injection H2 as ->.
  - intros kept err. rewrite loop_app.
    destruct (loop user items1 []) as [e|?]; [|done]. by intros [= _ ->].
  - intros out1 kept err. rewrite loop_app.
    destruct (loop user items1 []) as [?|o1]; [done|].
    intros [= ->] H2. rewrite (loop_acc user items2 out1).
    destruct (loop user items2 []) as [e|?]; [|done].
    by injection H2 as _ ->.
  - intros out1 Hf.
    pose proof (filter_success_verdicts user items1 out1) as Hok.
    unfold rbacFilter in Hok. specialize (Hok Hf).
    rewrite (api_proofs.loop_no_failure enforce ObjectName Item
               FromUnstructured user items1 [] Hok) in Hf.
    injection Hf as <-. simpl.
    rewrite (api_proofs.loop_no_failure enforce ObjectName Item
               FromUnstructured user _ []).
    + simpl. f_equal. by apply list_filter_filter_l.
    + apply Forall_forall. intros obj [_ Hin]%list_elem_of_filter.
      rewrite Forall_forall in Hok. by apply Hok.
  - intros out err Hf.
    destruct (loop user items1 []) as [e|o] eqn:Hloop.
    + by injection Hf as <- _.
    + injection Hf as <- _.
      assert (rbac_filter user items1 = (o, None)) as Hs
        by (unfold rbacFilter; by rewrite Hloop).
      apply filter_success_verdicts in Hs.
      rewrite (api_proofs.loop_no_failure enforce ObjectName Item
                 FromUnstructured user items1 [] Hs) in Hloop.
      injection Hloop as <-. apply sublist_filter.
Qed.

(** The list and the single read agree: a restore is kept by the list
    filter exactly when reading it by name succeeds, and dropped exactly
    when reading it is refused for lack of permission. *)
Theorem list_and_get_agree (ctx : RestoreRequest)
    (namespace name user : string) (obj : Item) (rs : ClusterRestore) :
  GetUser (request ctx) = inr user →
  kubeClient_GetDatabaseClusterRestore ctx namespace name = inr rs →
  FromUnstructured obj = inr rs →
  let read :=
    GetDatabaseClusterRestore enforce ObjectName Error attachK8sTypeMeta ctx
      namespace name in
  (is_allowed user obj = true ↔ read = Object 200 (attachK8sTypeMeta rs))
  ∧ (denied enforce ObjectName Item FromUnstructured user obj = true
     ↔ ∃ err, read = Plain (ReturnErr err) ∧ is_insufficient err = true).
Proof.
  intros Huser Hget Hdec. cbv zeta.
  unfold GetDatabaseClusterRestore, allowed, denied, item_verdict.
  rewrite Huser, Hget, Hdec.
  destruct (enforceDBClusterListRestoreRBAC _ _ _ _ _) as [err|]; simpl.
  - destruct (is_insufficient err) eqn:Hins; split; split;
      try done; try naive_solver.
  - split; split; try done. naive_solver.
Qed.

End Filter.

End Gate.

Lemma Create_proxies_only_when_authorized_witness :
  ∃ user, api.GetUser (fake.request "bob" (Some "bkp") "ready") = inr user.
Proof.
  destruct (Create_proxies_only_when_authorized fake.ObjectName fake.Error
              fake.enforce (fake.request "bob" (Some "bkp") "ready")
              "team-a" "team-a" "databaseclusterrestores" "" eq_refl)
    as (_ & user & _ & _ & _ & (Huser & _) & _).
  by exists user.
Defined.

Lemma Create_consults_three_grants_witness :
  CreateDatabaseClusterRestore fake.enforce fake.ObjectName fake.Error
    (fake.request "bob" (Some "bkp") "ready") "team-a"
  = CreateDatabaseClusterRestore (λ _ _ _ _, None) fake.ObjectName fake.Error
      (fake.request "bob" (Some "bkp") "ready") "team-a".
Proof.
  apply (Create_consults_three_grants fake.ObjectName fake.Error
           fake.enforce (λ _ _ _ _, None)
           (fake.request "bob" (Some "bkp") "ready") "team-a").
  intros user restore spec dbCluster ([= <-] & [= <-] & _ & [= <-] & [= <-]).
  by vm_compute.
Defined.

Lemma list_and_get_agree_witness :
  api.allowed fake.enforce fake.ObjectName fake.Item fake.FromUnstructured
    "bob" (Some ("team-a", "db1")) = true
  ↔ GetDatabaseClusterRestore fake.enforce fake.ObjectName fake.Error id
      (fake.restore_request "bob" "team-a" "db1") "team-a" "restore-1"
    = Object 200 {| GetNamespace := "team-a"; DBClusterName := "db1" |}.
Proof.
  refine (proj1 (list_and_get_agree fake.ObjectName fake.Error id
                   fake.enforce fake.Item fake.FromUnstructured
                   (fake.restore_request "bob" "team-a" "db1")
                   "team-a" "restore-1" "bob" (Some ("team-a", "db1"))
                   {| GetNamespace := "team-a"; DBClusterName := "db1" |}
                   _ _ _)); reflexivity.
Defined.

End api_more.

(** ** Validated names are in normal form *)

Module normal_form.
Import strings.

Ltac crack :=
  lazymatch goal with
  | |- context [match ?n with O => _ | S _ => _ end] =>
      is_var n; destruct n as [|n]; crack
  | |- _ => first [reflexivity | cbn; rewrite ?orb_false_r; reflexivity]
  end.

Lemma space_rune_nats enc :
  space_rune enc = space_nats (nat_of_ascii <$> enc).
Proof.
  unfold space_rune, space_nats.
  destruct enc as [|a [|b [|c [|d enc]]]]; cbn [fmap list_fmap];
    [reflexivity|..].
  - generalize (nat_of_ascii a) as x. intros x. crack.
  - generalize (nat_of_ascii a) as x, (nat_of_ascii b) as y. intros x y.
    crack.
  - generalize (nat_of_ascii a) as x, (nat_of_ascii b) as y,
      (nat_of_ascii c) as z. intros x y z. crack.
  - generalize (nat_of_ascii a) as x, (nat_of_ascii b) as y,
      (nat_of_ascii c) as z. intros x y z. crack.
Qed.

(** The encoding of a white-space rune has no byte of a name in it. *)
Lemma space_rune_bytes enc :
  space_rune enc = true → Forall space_byte enc.
Proof.
  rewrite space_rune_nats. unfold space_nats, space_byte.
  destruct enc as [|a [|b [|c [|d enc]]]]; cbn [fmap list_fmap];
    [done| | | |done];
    intros H;
    repeat first [ rewrite orb_true_iff in H | rewrite andb_true_iff in H
                 | rewrite Nat.leb_le in H | rewrite Nat.eqb_eq in H ];
    repeat (constructor; [cbv zeta; lia|]); constructor.
Qed.

Lemma name_byte_not_space c :
  spec.alnum_or_dash c = true → ¬ space_byte c.
Proof.
  unfold spec.alnum_or_dash, namespaces.lower, namespaces.digit,
    namespaces.dash, namespaces.in_range, space_byte.
  rewrite !orb_true_iff, !andb_true_iff, !Nat.leb_le. cbv zeta.
  change (nat_of_ascii "a") with 97. change (nat_of_ascii "z") with 122.
  change (nat_of_ascii "0") with 48. change (nat_of_ascii "9") with 57.
  intros [[?|?]|Hd]; [lia|lia|].
  apply Ascii.eqb_eq in Hd as ->. change (nat_of_ascii "-") with 45. lia.
Qed.

Lemma space_width_name c s : ¬ space_byte c → space_width (c :: s) = 0.
Proof.
  intros Hc. unfold space_width.
  assert (∀ k, space_rune (take (S k) (c :: s)) = false) as Hno.
  { intros k. destruct (space_rune _) eqn:Hs; [|done].
    apply space_rune_bytes in Hs. cbn [firstn] in Hs.
    by apply Forall_cons in Hs as [? _]. }
  by rewrite !Hno.
Qed.

Lemma last_space_width_name c r :
  ¬ space_byte c → last_space_width (c :: r) = 0.
Proof.
  intros Hc. unfold last_space_width.
  assert (∀ k, space_rune (reverse (take (S k) (c :: r))) = false) as Hno.
  { intros k. destruct (space_rune _) eqn:Hs; [|done].
    apply space_rune_bytes in Hs. rewrite Forall_forall in Hs.
    exfalso. apply Hc, Hs. apply elem_of_reverse. cbn [firstn]. left. }
  by rewrite !Hno.
Qed.

Lemma trim_go_nothing (width : list ascii → nat) fuel s :
  width s = 0 → trim_go width fuel s = s.
Proof. intros Hw. destruct fuel; simpl; [done|]. by rewrite Hw. Qed.

(** A string whose first and last bytes belong to no white-space rune is
    left as it is. *)
Lemma trim_name bs c l :
  head bs = Some c → last bs = Some l →
  ¬ space_byte c → ¬ space_byte l →
  trim_right (trim_left bs) = bs.
Proof.
  intros Hhead Hlast Hc Hl.
  assert (trim_left bs = bs) as ->.
  { unfold trim_left. apply trim_go_nothing.
    destruct bs as [|c' bs]; [done|]. injection Hhead as ->.
    by apply space_width_name. }
  unfold trim_right. rewrite trim_go_nothing; [apply reverse_involutive|].
  destruct bs as [|x bs _] using rev_ind; [done|].
  rewrite last_snoc in Hlast. injection Hlast as ->.
  rewrite reverse_snoc. by apply last_space_width_name.
Qed.

Lemma TrimSpace_dns_label t : spec.dns_label t → TrimSpace t = t.
Proof.
  intros (_ & _ & (c & Hhead & Hc) & (l & Hlast & Hl)).
  unfold TrimSpace. rewrite (trim_name _ c l Hhead Hlast).
  - apply string_of_list_ascii_of_string.
  - by apply name_byte_not_space, validator_proofs.alnum_is_alnum_or_dash,
      validator_proofs.lower_is_alnum.
  - by apply name_byte_not_space, validator_proofs.alnum_is_alnum_or_dash.
Qed.

Lemma split_comma_plain f :
  ("," : ascii) ∉ f → split_comma f = [f].
Proof.
  induction f as [|c f IH]; [done|]. intros Hnot. simpl.
  destruct (Ascii.eqb c ",") eqn:Hc.
  - apply Ascii.eqb_eq in Hc as ->. set_solver.
  - rewrite IH; [done|set_solver].
Qed.

Lemma split_comma_field f s :
  ("," : ascii) ∉ f →
  split_comma (f ++ ","%char :: s) = f :: split_comma s.
Proof.
  induction f as [|c f IH]; intros Hnot; [done|]. simpl.
  destruct (Ascii.eqb c ",") eqn:Hc.
  - apply Ascii.eqb_eq in Hc as ->. set_solver.
  - rewrite IH; [done|set_solver].
Qed.

(** Splitting undoes joining, for fields without a comma. *)
Lemma split_comma_of_join fields :
  fields ≠ [] →
  Forall (λ f, ("," : ascii) ∉ f) fields →
  split_comma (join_comma fields) = fields.
Proof.
  intros Hne Hall. induction Hall as [|f rest Hf Hrest IH]; [done|].
  destruct rest as [|g rest].
  - simpl. by apply split_comma_plain.
  - change (join_comma (f :: g :: rest))
      with (f ++ ","%char :: join_comma (g :: rest)).
    rewrite split_comma_field by done. by rewrite IH.
Qed.

Lemma dns_label_no_comma t :
  spec.dns_label t → ("," : ascii) ∉ bytes t.
Proof.
  intros (_ & Hall & _) Hin. rewrite Forall_forall in Hall.
  by specialize (Hall _ Hin).
Qed.

Lemma dns_label_nonempty t : spec.dns_label t → t ≠ "".
Proof. intros ([Hlen _] & _) ->. simpl in Hlen. lia. Qed.

(** Joined and split again, a list of DNS labels comes back as it was. *)
Lemma tokens_of_join (l : list string) :
  l ≠ [] → Forall spec.dns_label l → spec.tokens (Join l) = l.
Proof.
  intros Hne Hall. unfold spec.tokens, Split, Join, bytes, of_bytes.
  rewrite list_ascii_of_string_of_list_ascii, split_comma_of_join.
  - rewrite <- !list_fmap_compose.
    induction Hall as [|t l Ht Hl IH]; [done|].
    rewrite fmap_cons. cbn [compose].
    rewrite string_of_list_ascii_of_string, (TrimSpace_dns_label t Ht).
    rewrite filter_cons_True by by apply dns_label_nonempty.
    destruct l as [|t' l']; [done|]. by rewrite IH.
  - by destruct l.
  - apply Forall_fmap. eapply Forall_impl; [exact Hall|].
    intros t Ht. by apply dns_label_no_comma.
Qed.

Section RoundTrip.

Variable OLMNamespace : string.

(** What the validator returns is in normal form: every name is as
    [TrimSpace] leaves it and holds no comma, so that the list joined with
    commas splits into the same names and validates again, to the same set
    of names. *)
Theorem ValidateNamespaces_round_trip (o o' : MapOrder) (str : string)
    (l : list string) :
  namespaces.ValidateNamespaces OLMNamespace o str = inr l →
  Forall (λ ns, TrimSpace ns = ns ∧ ("," : ascii) ∉ bytes ns) l
  ∧ spec.tokens (Join l) = l
  ∧ ∃ l', namespaces.ValidateNamespaces OLMNamespace o' (Join l) = inr l'
          ∧ l' ≡ₚ l.
Proof.
  intros Hv.
  pose proof (validator_more.ValidateNamespaces_inr_nonempty _ _ _ _ Hv)
    as (_ & Hne & _).
  pose proof (validator_proofs.ValidateNamespaces_inr _ _ _ _ Hv)
    as [Hall Hl].
  assert (Forall spec.dns_label l) as Hdns.
  { rewrite Forall_forall in Hall |- *. intros ns Hns.
    apply (validator_proofs.passes_spec OLMNamespace), Hall.
    rewrite Hl in Hns. by apply validator_proofs.range_keys_elem_of in Hns. }
  pose proof (tokens_of_join l Hne Hdns) as Htok.
  split_and!; [|done|].
  - eapply Forall_impl; [exact Hdns|]. intros ns Hns.
    split; [by apply TrimSpace_dns_label|by apply dns_label_no_comma].
  - destruct (validator_more.ValidateNamespaces_same_tokens OLMNamespace
                o o' str (Join l) l) as (l' & Hv' & Hperm); [|done|].
    + intros t. rewrite Htok, Hl. symmetry.
      apply validator_proofs.range_keys_elem_of.
    + exists l'. by split.
Qed.

End RoundTrip.

Lemma ValidateNamespaces_round_trip_witness :
  spec.tokens (Join ["c"; "a"; "b"]) = ["c"; "a"; "b"].
Proof.
  refine (proj1 (proj2 (ValidateNamespaces_round_trip fake.OLMNamespace
                          elements_order reverse_order "a,b,a, ,c"
                          ["c"; "a"; "b"] _))).
  by vm_compute.
Defined.

End normal_form.

(** ** The list handler *)

Module list_more.
Import strings.

Example ReplaceAll_examples :
  ReplaceAll "a-b-c" "-" "+" = "a+b+c"
  ∧ ReplaceAll "aaa" "aa" "b" = "ba"
  ∧ ReplaceAll "abc" "x" "y" = "abc"
  ∧ ReplaceAll "abab" "ab" "abab" = "abababab"
  ∧ TrimSuffix "a/restores" "/restores" = "a"
  ∧ TrimSuffix "a/restore" "/restores" = "a/restore"
  ∧ TrimSuffix "abc" "" = "abc"
  ∧ index_of (bytes "bc") (bytes "abcbc") = Some 1.
Proof. split_and!; by vm_compute. Qed.

Lemma bytes_app (a b : string) : bytes (a +:+ b) = bytes a ++ bytes b.
Proof.
  induction a as [|c a IH]; [done|].
  change (bytes (String c a +:+ b)) with (c :: bytes (a +:+ b)).
  by rewrite IH.
Qed.

Lemma of_bytes_bytes (s : string) : of_bytes (bytes s) = s.
Proof. apply string_of_list_ascii_of_string. Qed.

Lemma bytes_of_bytes (l : list ascii) : bytes (of_bytes l) = l.
Proof. apply list_ascii_of_string_of_list_ascii. Qed.

Lemma of_bytes_app (a b : list ascii) : of_bytes (a ++ b) = of_bytes a +:+ of_bytes b.
Proof.
  induction a as [|c a IH]; [done|].
  change (of_bytes ((c :: a) ++ b)) with (String c (of_bytes (a ++ b))).
  by rewrite IH.
Qed.

Lemma has_prefix_app (p s : list ascii) : has_prefix p (p ++ s) = true.
Proof.
  induction p as [|c p IH]; [done|]. cbn. by rewrite Ascii.eqb_refl.
Qed.

Lemma has_suffix_app (p s : list ascii) : has_suffix p (s ++ p) = true.
Proof. unfold has_suffix. rewrite reverse_app. apply has_prefix_app. Qed.

Lemma TrimSuffix_app (s suffix : string) : TrimSuffix (s +:+ suffix) suffix = s.
Proof.
  unfold TrimSuffix. rewrite bytes_app, has_suffix_app, length_app.
  replace (length (bytes s) + length (bytes suffix) - length (bytes suffix))
    with (length (bytes s)) by lia.
  by rewrite take_app_length, of_bytes_bytes.
Qed.

(** Whether [old] starts at the head of [s ++ r] does not depend on [r] when
    [s] is at least as long as [old]. *)
Lemma has_prefix_within (old s r1 r2 : list ascii) :
  (length old ≤ length s)%nat →
  has_prefix old (s ++ r1) = has_prefix old (s ++ r2).
Proof.
  revert s. induction old as [|c old IH]; intros [|d s] Hlen; cbn in *; try done; try lia.
  f_equal. apply IH. lia.
Qed.

Lemma index_of_rest (old pre r1 r2 : list ascii) :
  index_of old (pre ++ old ++ r1) = Some (length pre) →
  index_of old (pre ++ old ++ r2) = Some (length pre).
Proof.
  induction pre as [|c pre IH]; intros H.
  - cbn [app length]. destruct (old ++ r2) eqn:E; cbn;
      rewrite <- E, has_prefix_app; done.
  - cbn [app length] in *. cbn [index_of] in *.
    assert (has_prefix old (c :: pre ++ old ++ r2)
            = has_prefix old (c :: pre ++ old ++ r1)) as ->.
    { rewrite !(app_assoc pre old).
      apply (has_prefix_within old (c :: pre ++ old)).
      cbn. rewrite length_app. lia. }
    destruct (has_prefix old (c :: pre ++ old ++ r1)); [done|].
    destruct (index_of old (pre ++ old ++ r1)) as [n|] eqn:E; [|done].
    cbn in H. injection H as ->. by rewrite IH.
Qed.

Lemma replace_go_at (old new pre rest : list ascii) (fuel : nat) :
  index_of old (pre ++ old ++ rest) = Some (length pre) →
  length pre < fuel →
  replace_go fuel old new (pre ++ old ++ rest)
  = pre ++ new ++ replace_go (fuel - S (length pre)) old new rest.
Proof.
  revert fuel. induction pre as [|c pre IH]; intros [|fuel] H Hf; cbn [length] in *; try lia.
  - cbn [app replace_go]. rewrite has_prefix_app, drop_app_length.
    do 2 f_equal. lia.
  - cbn [app index_of replace_go] in *.
    destruct (has_prefix old (c :: pre ++ old ++ rest)); [done|].
    destruct (index_of old (pre ++ old ++ rest)) as [n|] eqn:E; [|done].
    cbn in H. injection H as ->. rewrite IH; [done..|lia].
Qed.

Lemma replace_go_none (old new s : list ascii) (fuel : nat) :
  index_of old s = None → replace_go fuel old new s = s.
Proof.
  revert fuel. induction s as [|c s IH]; intros [|fuel] H; cbn in *; try done.
  - by destruct (has_prefix old []).
  - destruct (has_prefix old (c :: s)); [done|].
    destruct (index_of old s); [done|]. by rewrite IH.
Qed.

Lemma append_assoc (a b c : string) : (a +:+ b) +:+ c = a +:+ b +:+ c.
Proof.
  rewrite <- (of_bytes_bytes ((a +:+ b) +:+ c)), <- (of_bytes_bytes (a +:+ b +:+ c)).
  by rewrite !bytes_app, app_assoc.
Qed.

Section List.

Variable Error : api.error → string.
Variable validateRFC1035 : string → string → option api.error.

(** On the route […/database-clusters/<name>/restores] the handler passes
    on the path […/database-cluster-restores/] and the label selector
    [clusterName=<name>], and proxies the list of restores of the
    namespace for the user of the request. *)
Theorem List_rewrites_the_route (ctx : api.ListRequest)
    (namespace name pre user : string) :
  validateRFC1035 name "name" = None →
  api.list_GetUser ctx = inr user →
  api.URL_Path ctx = pre +:+ "database-clusters/" +:+ name +:+ "/restores" →
  index_of (bytes "database-clusters") (bytes (api.URL_Path ctx))
  = Some (length (bytes pre)) →
  api.ListDatabaseClusterRestores Error validateRFC1035 ctx namespace name
  = api.ListProxy namespace "databaseclusterrestores" ""
      (pre +:+ "database-cluster-restores/")
      [("labelSelector", "clusterName=" +:+ name)] user.
Proof.
  intros Hname Huser Hpath Hindex.
  unfold api.ListDatabaseClusterRestores. rewrite Hname, Huser.
  rewrite Hpath in *. f_equal.
  rewrite <- !append_assoc, TrimSuffix_app, TrimSuffix_app.
  unfold ReplaceAll.
  change "database-clusters/" with ("database-clusters" +:+ "/") in *.
  rewrite !bytes_app in *. rewrite <- ?app_assoc in Hindex.
  apply (index_of_rest _ _ _ (bytes "/")) in Hindex.
  rewrite <- ?app_assoc.
  rewrite (replace_go_at _ (bytes "database-cluster-restores") _ _ _ Hindex).
  2:{ rewrite !length_app. lia. }
  rewrite replace_go_none by (by vm_compute).
  rewrite !of_bytes_app, !of_bytes_bytes. done.
Qed.

End List.

Lemma List_rewrites_the_route_witness :
  api.ListDatabaseClusterRestores fake.Error fake.validate_name
    (fake.list_request "alice"
       "/v1/namespaces/ns/database-clusters/db1/restores") "ns" "db1"
  = api.ListProxy "ns" "databaseclusterrestores" ""
      "/v1/namespaces/ns/database-cluster-restores/"
      [("labelSelector", "clusterName=db1")] "alice".
Proof.
  apply (List_rewrites_the_route fake.Error fake.validate_name
           (fake.list_request "alice"
              "/v1/namespaces/ns/database-clusters/db1/restores")
           "ns" "db1" "/v1/namespaces/ns/" "alice"); by vm_compute.
Defined.

End list_more.
